(** * BMI calculator component: validation, evaluation and scale position

    A shallow embedding of the React component [BMICalculator]
    (components/bmi-calculator.tsx): the field validator [validateField],
    the change handler [handleInputChange], the submit handler
    [calculateBMI] and the helpers [getCategoryStyles] and
    [getBmiScalePosition], together with the
    parts of the JavaScript platform they call: IEEE 754 binary64
    arithmetic and comparisons, [Number.parseFloat],
    [Number.prototype.toFixed], [String.prototype.trim], [Math.max] and
    [Math.min].

    JavaScript numbers are modelled by the binary64 instance of the
    standard library's [SpecFloat] ([prec = 53], [emax = 1024]); strings by
    [String.string], one [ascii] per code unit (the model covers the code
    units below 256). *)

From Stdlib Require Import ZArith QArith Qabs Qround Qpower Lia Lqa Bool List.
From Stdlib Require Import Ascii String DecimalString DecimalN DecimalFacts.
From Stdlib Require Import Floats.SpecFloat.
Import ListNotations.

Local Open Scope Z_scope.

(** ** JavaScript numbers *)

Module Number.

Definition prec : Z := 53.
Definition emax : Z := 1024.

(** A Number value: a binary64 datum.  Well-formed data satisfy
    [valid_binary prec emax]. *)
Definition number : Type := spec_float.

Definition valid (x : number) : bool := valid_binary prec emax x.

Definition mul : number -> number -> number := SFmul prec emax.
Definition div : number -> number -> number := SFdiv prec emax.
Definition sub : number -> number -> number := SFsub prec emax.

(** [a < b], [a <= b] and [a > b]: false as soon as one side is NaN. *)
Definition ltb (a b : number) : bool := SFltb a b.
Definition leb (a b : number) : bool := SFleb a b.
Definition gtb (a b : number) : bool := SFltb b a.

(** The globals [isNaN] and [isFinite] at a Number argument. *)
Definition isNaN (x : number) : bool :=
  match x with
  | S754_nan => true
  | _ => false
  end.

Definition isFinite (x : number) : bool :=
  match x with
  | S754_nan | S754_infinity _ => false
  | _ => true
  end.

(** The Number value for the rational [p/q] ([-p/q] when [s] is set):
    the quotient of the two integers, rounded once to nearest, ties to
    even, overflowing to an infinity. *)
Definition ofRatio (s : bool) (p q : positive) : number :=
  SFdiv prec emax (S754_finite s p 0) (S754_finite false q 0).

(** The Number value for the decimal [m * 10^e], with a signed zero. *)
Definition ofDecimal (s : bool) (m : N) (e : Z) : number :=
  match m with
  | N0 => S754_zero s
  | Npos p =>
      match e with
      | Z0 => ofRatio s p 1
      | Zpos k => ofRatio s (p * 10 ^ k) 1
      | Zneg k => ofRatio s p (10 ^ k)
      end
  end.

(** The mathematical value of a finite Number (0 for the others). *)
Definition toQ (x : number) : Q :=
  match x with
  | S754_finite s m e =>
      inject_Z (if s then Zneg m else Zpos m) * Qpower 2 e
  | _ => 0%Q
  end.

(** [Math.min] and [Math.max] (ECMA-262 21.3.2.24/25): NaN as soon as an
    argument is NaN; [-0] counts as smaller than [+0]. *)
Definition min_step (lowest x : number) : number :=
  match lowest, x with
  | S754_zero false, S754_zero true => x
  | _, _ => if ltb x lowest then x else lowest
  end.

Definition max_step (highest x : number) : number :=
  match highest, x with
  | S754_zero true, S754_zero false => x
  | _, _ => if gtb x highest then x else highest
  end.

Definition Math_min (args : list number) : number :=
  if existsb isNaN args then S754_nan
  else fold_left min_step args (S754_infinity false).

Definition Math_max (args : list number) : number :=
  if existsb isNaN args then S754_nan
  else fold_left max_step args (S754_infinity true).

End Number.

Import Number.

(** ** JavaScript strings *)

Local Open Scope string_scope.

(** WhiteSpace and LineTerminator code units (ECMA-262 12.2, 12.3) below
    256: TAB, LF, VT, FF, CR, SP and NBSP. *)
Definition isWhiteSpace (c : ascii) : bool :=
  let n := N_of_ascii c in
  ((9 <=? n) && (n <=? 13) || (n =? 32) || (n =? 160))%N.

Fixpoint trimStart (s : string) : string :=
  match s with
  | String c r => if isWhiteSpace c then trimStart r else s
  | EmptyString => s
  end.

Fixpoint trimEnd (s : string) : string :=
  match s with
  | String c r =>
      match trimEnd r with
      | EmptyString => if isWhiteSpace c then EmptyString else String c EmptyString
      | r' => String c r'
      end
  | EmptyString => s
  end.

(** [String.prototype.trim]. *)
Definition trim (s : string) : string := trimEnd (trimStart s).

(** [s.charAt(0)], [s.slice(1)] and [s.toUpperCase()]; the last one is
    exact on the ASCII range, which holds the two field names. *)
Definition charAt0 (s : string) : string :=
  match s with
  | String c _ => String c EmptyString
  | EmptyString => EmptyString
  end.

Definition slice1 (s : string) : string :=
  match s with
  | String _ r => r
  | EmptyString => EmptyString
  end.

Definition upperChar (c : ascii) : ascii :=
  let n := N_of_ascii c in
  if ((97 <=? n) && (n <=? 122))%N then ascii_of_N (n - 32) else c.

Fixpoint toUpperCase (s : string) : string :=
  match s with
  | String c r => String (upperChar c) (toUpperCase r)
  | EmptyString => EmptyString
  end.

(** *** Number.parseFloat (ECMA-262 21.1.2.12, 7.1.4.1) *)

(** A decimal digit, as the constructor of [Decimal.uint] that prepends it. *)
Definition digitOf (c : ascii) : option (Decimal.uint -> Decimal.uint) :=
  match c with
  | "0"%char => Some Decimal.D0
  | "1"%char => Some Decimal.D1
  | "2"%char => Some Decimal.D2
  | "3"%char => Some Decimal.D3
  | "4"%char => Some Decimal.D4
  | "5"%char => Some Decimal.D5
  | "6"%char => Some Decimal.D6
  | "7"%char => Some Decimal.D7
  | "8"%char => Some Decimal.D8
  | "9"%char => Some Decimal.D9
  | _ => None
  end.

(** The longest run of decimal digits at the head of [s], and what
    follows it. *)
Fixpoint lexDigits (s : string) : Decimal.uint * string :=
  match s with
  | String c r =>
      match digitOf c with
      | Some d => let (ds, rest) := lexDigits r in (d ds, rest)
      | None => (Decimal.Nil, s)
      end
  | EmptyString => (Decimal.Nil, s)
  end.

(** SignedInteger: the value of an optional sign and at least one digit. *)
Definition lexSignedInteger (s : string) : option Z :=
  let (neg, r) :=
    match s with
    | String "+"%char r => (false, r)
    | String "-"%char r => (true, r)
    | _ => (false, s)
    end in
  match fst (lexDigits r) with
  | Decimal.Nil => None
  | ds => Some (if neg then Z.opp (Z.of_N (N.of_uint ds)) else Z.of_N (N.of_uint ds))
  end.

(** The value of the ExponentPart at the head of [s]; 0 when [s] does not
    start with a complete one, so that the literal ends before it. *)
Definition lexExponent (s : string) : Z :=
  match s with
  | String c r =>
      if (Ascii.eqb c "e" || Ascii.eqb c "E")%bool then
        match lexSignedInteger r with
        | Some e => e
        | None => 0%Z
        end
      else 0%Z
  | EmptyString => 0%Z
  end.

Variant literal : Type :=
  | LitInfinity
  | LitDecimal (int frac : Decimal.uint) (exp : Z).

(** The longest prefix of [s] of one of the forms
    [DecimalDigits . DecimalDigits? ExponentPart?],
    [. DecimalDigits ExponentPart?] and [DecimalDigits ExponentPart?]. *)
Definition lexDecimal (s : string) : option literal :=
  let (int, r1) := lexDigits s in
  match r1 with
  | String "."%char r2 =>
      let (frac, r3) := lexDigits r2 in
      match int, frac with
      | Decimal.Nil, Decimal.Nil => None
      | _, _ => Some (LitDecimal int frac (lexExponent r3))
      end
  | _ =>
      match int with
      | Decimal.Nil => None
      | _ => Some (LitDecimal int Decimal.Nil (lexExponent r1))
      end
  end.

(** The longest prefix of [s] that is a StrUnsignedDecimalLiteral. *)
Definition lexUnsigned (s : string) : option literal :=
  if prefix "Infinity" s then Some LitInfinity else lexDecimal s.

(** StringNumericValue: [(a + b * 10^-n) * 10^e], rounded to a Number.
    Literals of more than 20 significant digits, for which the standard
    allows an approximation, take their exact value too. *)
Definition literalValue (neg : bool) (l : literal) : number :=
  match l with
  | LitInfinity => S754_infinity neg
  | LitDecimal int frac e =>
      ofDecimal neg (N.of_uint (Decimal.app int frac))
        (e - Z.of_nat (Decimal.nb_digits frac))
  end.

Definition parseFloat (inputString : string) : number :=
  let trimmedString := trimStart inputString in
  let (neg, unsigned) :=
    match trimmedString with
    | String "+"%char r => (false, r)
    | String "-"%char r => (true, r)
    | _ => (false, trimmedString)
    end in
  match lexUnsigned unsigned with
  | Some l => literalValue neg l
  | None => S754_nan
  end.

(** *** Number.prototype.toFixed (ECMA-262 21.1.3.3) *)

Fixpoint repeat0 (n : nat) : string :=
  match n with
  | O => EmptyString
  | S n' => String "0"%char (repeat0 n')
  end.

(** The decimal representation of a natural number. *)
Definition digitsOf (n : N) : string := NilEmpty.string_of_uint (N.to_uint n).

Section ToFixed.

(** Number::toString (ECMA-262 6.1.6.1.20).  [toFixed] calls it for the
    values that are not finite and for magnitudes of at least 10^21; the
    standard leaves the last digit it prints to the implementation. *)
Variable NumberToString : number -> string.

(** [x.toFixed(fractionDigits)], for [fractionDigits] between 0 and 100. *)
Definition toFixed (x : number) (fractionDigits : nat) : string :=
  if negb (isFinite x) then NumberToString x
  else
    let s := if Qlt_le_dec (toQ x) 0 then "-" else "" in
    let x' := Qabs (toQ x) in
    if Qle_bool (inject_Z (10 ^ 21)) x' then s ++ NumberToString (SFabs x)
    else
      (* the integer n with n / 10^f - x closest to zero, the larger one
         of two *)
      let n := Qfloor (x' * inject_Z (10 ^ Z.of_nat fractionDigits) + (1 # 2)) in
      let m := if (n =? 0)%Z then "0" else digitsOf (Z.to_N n) in
      let m :=
        match fractionDigits with
        | O => m
        | _ =>
            let k := String.length m in
            let m := if (k <=? fractionDigits)%nat
                     then repeat0 (fractionDigits + 1 - k) ++ m else m in
            let k := String.length m in
            substring 0 (k - fractionDigits) m ++ "." ++
            substring (k - fractionDigits) fractionDigits m
        end in
      s ++ m.

End ToFixed.

(** ** Numeric literals of the component *)

Definition num_0 : number := Eval vm_compute in ofDecimal false 0 0.
Definition num_10 : number := Eval vm_compute in ofDecimal false 10 0.
Definition num_18_5 : number := Eval vm_compute in ofDecimal false 185 (-1).
Definition num_20 : number := Eval vm_compute in ofDecimal false 20 0.
Definition num_25 : number := Eval vm_compute in ofDecimal false 25 0.
Definition num_30 : number := Eval vm_compute in ofDecimal false 30 0.
Definition num_40 : number := Eval vm_compute in ofDecimal false 40 0.
Definition num_50 : number := Eval vm_compute in ofDecimal false 50 0.
Definition num_100 : number := Eval vm_compute in ofDecimal false 100 0.
Definition num_250 : number := Eval vm_compute in ofDecimal false 250 0.
Definition num_500 : number := Eval vm_compute in ofDecimal false 500 0.

(** ** The component *)

(** The parameter type ["height" | "weight"]. *)
Variant Field : Type := Height | Weight.

Definition fieldName (field : Field) : string :=
  match field with
  | Height => "height"
  | Weight => "weight"
  end.

(** The [errors] object [{ height?: string; weight?: string; general?: string }];
    an absent or [undefined] property is [None]. *)
Module Errors.
Record t : Type := mk {
  height : option string;
  weight : option string;
  general : option string
}.

Definition empty : t := mk None None None.

(** [{ ...prev, [field]: error }] *)
Definition set (field : Field) (error : option string) (prev : t) : t :=
  match field with
  | Height => mk error (weight prev) (general prev)
  | Weight => mk (height prev) error (general prev)
  end.

(** [{ ...prev, general: error }] *)
Definition setGeneral (error : option string) (prev : t) : t :=
  mk (height prev) (weight prev) error.

Definition get (field : Field) (e : t) : option string :=
  match field with
  | Height => height e
  | Weight => weight e
  end.
End Errors.

(** The state held by the [useState] hooks.  [animateResult], a highlight
    flag driven by a timer, takes no part in the logic and is left out. *)
Record State : Type := mkState {
  height : string;
  weight : string;
  bmi : option number;
  category : string;
  errors : Errors.t;
  submitted : bool
}.

Definition initialState : State :=
  mkState "" "" None "" Errors.empty false.

Definition setHeight (v : string) (st : State) : State :=
  mkState v (weight st) (bmi st) (category st) (errors st) (submitted st).
Definition setWeight (v : string) (st : State) : State :=
  mkState (height st) v (bmi st) (category st) (errors st) (submitted st).
Definition setBmi (v : option number) (st : State) : State :=
  mkState (height st) (weight st) v (category st) (errors st) (submitted st).
Definition setCategory (v : string) (st : State) : State :=
  mkState (height st) (weight st) (bmi st) v (errors st) (submitted st).
Definition setErrors (f : Errors.t -> Errors.t) (st : State) : State :=
  mkState (height st) (weight st) (bmi st) (category st) (f (errors st)) (submitted st).
Definition setSubmitted (v : bool) (st : State) : State :=
  mkState (height st) (weight st) (bmi st) (category st) (errors st) v.

(** Truthiness of a [string | undefined]. *)
Definition truthy (v : option string) : bool :=
  match v with
  | Some EmptyString | None => false
  | Some _ => true
  end.

(** Validate a single field. *)
Definition validateField (field : Field) (value : string) : option string :=
  let numValue := parseFloat value in
  if negb (truthy (Some (trim value))) then
    Some (toUpperCase (charAt0 (fieldName field)) ++ slice1 (fieldName field)
            ++ " is required")
  else if (isNaN numValue || leb numValue num_0)%bool then
    Some ("Please enter a valid " ++ fieldName field)
  else
    match field with
    | Height =>
        if ltb numValue num_50 then Some "Height seems too low (min 50cm)"
        else if gtb numValue num_250 then Some "Height seems too high (max 250cm)"
        else None
    | Weight =>
        if ltb numValue num_20 then Some "Weight seems too low (min 20kg)"
        else if gtb numValue num_500 then Some "Weight seems too high (max 500kg)"
        else None
    end.

(** Handle input changes without showing errors; once the form has been
    submitted, update the field's error on change. *)
Definition handleInputChange (field : Field) (value : string) (st : State) : State :=
  let st1 :=
    match field with
    | Height => setHeight value st
    | Weight => setWeight value st
    end in
  if submitted st then
    let error := validateField field value in
    setErrors (Errors.set field error) st1
  else st1.

(** The quotient computed in the [try] block (lines 96-103). *)
Definition bmiValueOf (heightText weightText : string) : number :=
  let heightValue := parseFloat heightText in
  let weightValue := parseFloat weightText in
  let heightInMeters := div heightValue num_100 in
  div weightValue (mul heightInMeters heightInMeters).

(** The category chosen at lines 113-121. *)
Definition categoryOf (bmiValue : number) : string :=
  if ltb bmiValue num_18_5 then "Underweight"
  else if ltb bmiValue num_25 then "Normal weight"
  else if ltb bmiValue num_30 then "Overweight"
  else "Obese".

Definition generalErrorMessage : string :=
  "An error occurred during calculation. Please check your inputs.".

(** The [catch] clause: keep previous results but show the error. *)
Definition onCalculationError (st : State) : State :=
  setErrors (Errors.setGeneral (Some generalErrorMessage)) st.

(** Category color mapping (lines 133-146): a [switch] on the category. *)
Definition defaultStyles : string := "bg-muted text-muted-foreground".

Definition getCategoryStyles (st : State) : string :=
  if String.eqb (category st) "Underweight" then
    "bg-primary/10 text-primary border-primary/20"
  else if String.eqb (category st) "Normal weight" then
    "bg-emerald-500/10 text-emerald-600 dark:text-emerald-400 border-emerald-500/20"
  else if String.eqb (category st) "Overweight" then
    "bg-amber-500/10 text-amber-600 dark:text-amber-400 border-amber-500/20"
  else if String.eqb (category st) "Obese" then
    "bg-destructive/10 text-destructive border-destructive/20"
  else defaultStyles.

(** What the markup shows of the state: the general alert
    ([errors.general && submitted], line 176), the message under a field
    ([submitted && errors.height], lines 202 and 226) and the result block
    ([bmi !== null], line 239). *)
Definition generalAlert (st : State) : option string :=
  if (truthy (Errors.general (errors st)) && submitted st)%bool
  then Errors.general (errors st) else None.

Definition fieldErrorShown (field : Field) (st : State) : option string :=
  if (submitted st && truthy (Errors.get field (errors st)))%bool
  then Errors.get field (errors st) else None.

Definition resultShown (st : State) : bool :=
  match bmi st with
  | Some _ => true
  | None => false
  end.

Section Component.

Variable NumberToString : number -> string.

(** The outcome of the [try] block (lines 95-121) for the two texts:
    the exception of line 107, or the values handed to [setBmi] and
    [setCategory]. *)
Variant Outcome : Type :=
  | Thrown
  | Computed (bmi : number) (category : string).

Definition evaluate (heightText weightText : string) : Outcome :=
  let bmiValue := bmiValueOf heightText weightText in
  if (negb (isFinite bmiValue) || isNaN bmiValue)%bool then Thrown
  else
    Computed (parseFloat (toFixed NumberToString bmiValue 1))
             (categoryOf bmiValue).

(** The submit handler. *)
Definition calculateBMI (st : State) : State :=
  (* Mark form as submitted *)
  let st1 := setSubmitted true st in
  (* Validate both fields *)
  let heightError := validateField Height (height st) in
  let weightError := validateField Weight (weight st) in
  (* Update errors state, clearing any general error *)
  let st2 := setErrors (fun _ => Errors.mk heightError weightError None) st1 in
  (* If there are any errors, keep previous results *)
  if (truthy heightError || truthy weightError)%bool then st2
  else
    match evaluate (height st) (weight st) with
    | Computed b c => setCategory c (setBmi (Some b) st2)
    | Thrown => onCalculationError st2
    end.

(** Calculate position on the BMI scale (0-100%). *)
Definition getBmiScalePosition (st : State) : number :=
  match bmi st with
  | None => num_0
  | Some b =>
      (* Clamp between 10 and 40 for the visual scale *)
      let clampedBmi := Math_max [num_10; Math_min [b; num_40]] in
      (* Convert to percentage (10 = 0%, 40 = 100%) *)
      mul (div (sub clampedBmi num_10) num_30) num_100
  end.

(** The events of the form, and the state after one of them. *)
Variant Event : Type :=
  | InputChange (field : Field) (value : string)
  | Submit.

Definition step (st : State) (ev : Event) : State :=
  match ev with
  | InputChange field value => handleInputChange field value st
  | Submit => calculateBMI st
  end.

Definition run (st : State) (evs : list Event) : State :=
  fold_left step evs st.

End Component.

(** ** Canonical data and rounding *)

Local Open Scope Z_scope.

(** The rational [m * 2^e]. *)
Definition F2Q (m e : Z) : Q := inject_Z m * Qpower 2 e.

(** The datum with sign [s], mantissa [m] and exponent [e], overflowing to
    an infinity: the last step of [binary_round_aux]. *)
Definition pack (s : bool) (m e : Z) : number :=
  match m with
  | Z0 => S754_zero s
  | Zpos p => if e <=? emax - prec then S754_finite s p e else S754_infinity s
  | Zneg _ => S754_nan
  end.

(** [m] and [e] are the mantissa and exponent of a binary64 datum in
    canonical form. *)
Definition canonical (m e : Z) : Prop :=
  SpecFloat.fexp prec emax (Zdigits2 m + e) = e.

(** [x] is the datum of sign [s] whose magnitude is a rounding of [v]:
    in canonical form, and on the same side of every canonical datum as
    [v] is. *)
Definition rounds_to (v : Q) (s : bool) (x : number) : Prop :=
  exists mf ef,
    x = pack s mf ef
    /\ 0 <= mf /\ (0 < mf -> canonical mf ef)
    /\ (forall mh eh, 0 < mh -> canonical mh eh ->
        (v <= F2Q mh eh)%Q -> (F2Q mf ef <= F2Q mh eh)%Q)
    /\ (forall ml el, 0 < ml -> canonical ml el ->
        (F2Q ml el <= v)%Q -> (F2Q ml el <= F2Q mf ef)%Q).

(** A well-formed, finite and positive Number. *)
Definition posFinite (x : number) : Prop :=
  match x with
  | S754_finite false _ _ => valid x = true
  | _ => False
  end.

(** ** Vocabulary of the specification *)

Local Open Scope string_scope.

(** The nearest integer, a tie going away from zero. *)
Definition roundHalfAway (x : Q) : Z :=
  if Qlt_le_dec x 0 then - Qfloor (- x + (1 # 2)) else Qfloor (x + (1 # 2)).

(** [x] rounded at the tenths digit, counted in tenths: the rounded value is
    [roundTenths x / 10]. *)
Definition roundTenths (x : Q) : Z := roundHalfAway (x * 10).

(** The quotient of the specification, over the rationals: the weight
    divided by the square of the height in metres, [w / (h / 100)^2]. *)
Definition specQuotient (h w : Q) : Q := w / ((h / 100) * (h / 100)).

(** The messages of section 4.1, per field. *)
Definition requiredMessage (field : Field) : string :=
  match field with
  | Height => "Height is required"
  | Weight => "Weight is required"
  end.

Definition invalidMessage (field : Field) : string :=
  match field with
  | Height => "Please enter a valid height"
  | Weight => "Please enter a valid weight"
  end.

Definition tooLowMessage (field : Field) : string :=
  match field with
  | Height => "Height seems too low (min 50cm)"
  | Weight => "Weight seems too low (min 20kg)"
  end.

Definition tooHighMessage (field : Field) : string :=
  match field with
  | Height => "Height seems too high (max 250cm)"
  | Weight => "Weight seems too high (max 500kg)"
  end.

(** The inclusive range of a field: [50, 250] and [20, 500]. *)
Definition lowerBound (field : Field) : number :=
  match field with
  | Height => num_50
  | Weight => num_20
  end.

Definition upperBound (field : Field) : number :=
  match field with
  | Height => num_250
  | Weight => num_500
  end.

Definition inRange (field : Field) (v : number) : bool :=
  (leb (lowerBound field) v && leb v (upperBound field))%bool.

(** A text is numeric when it is not blank and parses to a number. *)
Definition numericText (value : string) : Prop :=
  trim value <> "" /\ isNaN (parseFloat value) = false.

(** Both texts of a state pass validation. *)
Definition validInputs (st : State) : Prop :=
  validateField Height (height st) = None
  /\ validateField Weight (weight st) = None.

(** The four bands of section 4.2, on the score. *)
Definition isUnderweight (score : number) : bool := ltb score num_18_5.
Definition isNormal (score : number) : bool :=
  (leb num_18_5 score && ltb score num_25)%bool.
Definition isOverweight (score : number) : bool :=
  (leb num_25 score && ltb score num_30)%bool.
Definition isObese (score : number) : bool := leb num_30 score.

(** The category names of the specification and those of the component. *)
Definition specCategories : list string :=
  ["Underweight"; "Normal"; "Overweight"; "Obese"].

Definition componentCategories : list string :=
  ["Underweight"; "Normal weight"; "Overweight"; "Obese"].

(** For the examples: a stand-in for Number::toString, which they never
    reach, the submission of the texts "170" and "70", and the edit of the
    weight to "-5" after it. *)
Definition sampleToString : number -> string := fun _ => "".

Definition sampleInputs : State := setWeight "70" (setHeight "170" initialState).

Definition sampleSubmission : list Event :=
  [InputChange Height "170"; InputChange Weight "70"; Submit].

Definition sampleInvalidEdit : list Event :=
  (sampleSubmission ++ [InputChange Weight "-5"])%list.

(** The text held for a field, and the value of the last edit of a field
    in a run of events ([start] when there is none). *)
Definition fieldText (field : Field) (st : State) : string :=
  match field with
  | Height => height st
  | Weight => weight st
  end.

Definition Field_eqb (a b : Field) : bool :=
  match a, b with
  | Height, Height | Weight, Weight => true
  | _, _ => false
  end.

Definition lastEdit (field : Field) (evs : list Event) (start : string) : string :=
  fold_left (fun text ev =>
               match ev with
               | InputChange f v => if Field_eqb f field then v else text
               | Submit => text
               end) evs start.

(** A run of events without a submission. *)
Definition onlyEdits (evs : list Event) : Prop :=
  forall ev, In ev evs -> ev <> Submit.

(** The score stored for a quotient: the Number value for its value rounded
    at the tenths digit. *)
Definition storedScore (quotient : number) : number :=
  ofDecimal false (Z.to_N (roundTenths (toQ quotient))) (-1).

(** The end of the third quarter of the scale. *)
Definition num_75 : number := Eval vm_compute in ofDecimal false 75 0.

(** A string of decimal digits. *)
Fixpoint allDigits (s : string) : bool :=
  match s with
  | String c r =>
      match digitOf c with
      | Some _ => allDigits r
      | None => false
      end
  | EmptyString => true
  end.

(** A text that cannot continue a run of digits as a numeric literal: it is
    empty, or starts with something else than a digit, a decimal point or
    an exponent indicator. *)
Definition stopsNumber (s : string) : bool :=
  match s with
  | String c _ =>
      match digitOf c with
      | Some _ => false
      | None => negb (Ascii.eqb c "." || Ascii.eqb c "e" || Ascii.eqb c "E")
      end
  | EmptyString => true
  end.

(** The range of a field in whole numbers, and what the validation rules
    say of the whole number [n] of centimetres or kilograms. *)
Definition lowerN (field : Field) : N :=
  match field with
  | Height => 50
  | Weight => 20
  end.

Definition upperN (field : Field) : N :=
  match field with
  | Height => 250
  | Weight => 500
  end.

Definition integerVerdict (field : Field) (n : N) : option string :=
  if (n =? 0)%N then Some (invalidMessage field)
  else if (n <? lowerN field)%N then Some (tooLowMessage field)
  else if (upperN field <? n)%N then Some (tooHighMessage field)
  else None.

(** * Properties *)

(** ** Binary64 rounding: auxiliary facts *)

Local Open Scope Z_scope.

Local Abbreviation fexp := (SpecFloat.fexp prec emax).

Lemma fexp_eq z : fexp z = Z.max (z - 53) (-1074).
Proof. reflexivity. Qed.

Lemma bpow_pos e : (0 < Qpower 2 e)%Q.
Proof. apply Qpower_0_lt. reflexivity. Qed.

Lemma bpow_add a b : (Qpower 2 (a + b) == Qpower 2 a * Qpower 2 b)%Q.
Proof. apply Qpower_plus. discriminate. Qed.

Lemma bpow_le a b : a <= b -> (Qpower 2 a <= Qpower 2 b)%Q.
Proof. intros H. apply Qpower_le_compat_l; [exact H | discriminate]. Qed.

Lemma bpow_lt a b : a < b -> (Qpower 2 a < Qpower 2 b)%Q.
Proof. intros H. apply Qpower_lt_compat_l; [exact H | reflexivity]. Qed.

Lemma bpow_Z k : 0 <= k -> (Qpower 2 k == inject_Z (2 ^ k))%Q.
Proof. intros H. rewrite (Zpower_Qpower 2 k H). reflexivity. Qed.

Lemma F2Q_shift m e k : 0 <= k -> (F2Q (m * 2 ^ k) e == F2Q m (e + k))%Q.
Proof.
  intros H. unfold F2Q.
  rewrite inject_Z_mult, bpow_add, <- (bpow_Z k H). ring.
Qed.

Lemma F2Q_le m m' e : m <= m' -> (F2Q m e <= F2Q m' e)%Q.
Proof.
  intros H. unfold F2Q. apply Qmult_le_compat_r.
  - rewrite <- Zle_Qle. exact H.
  - apply Qlt_le_weak, bpow_pos.
Qed.

Lemma F2Q_lt m m' e : m < m' -> (F2Q m e < F2Q m' e)%Q.
Proof.
  intros H. unfold F2Q. apply Qmult_lt_compat_r.
  - apply bpow_pos.
  - rewrite <- Zlt_Qlt. exact H.
Qed.

Lemma F2Q_le_inv m m' e : (F2Q m e <= F2Q m' e)%Q -> m <= m'.
Proof.
  intros H. destruct (Z_lt_le_dec m' m) as [L | L]; [| exact L].
  apply (F2Q_lt _ _ e) in L. apply Qlt_not_le in L. contradiction.
Qed.

Lemma F2Q_lt_inv m m' e : (F2Q m e < F2Q m' e)%Q -> m < m'.
Proof.
  intros H. destruct (Z_lt_le_dec m m') as [L | L]; [exact L |].
  apply (F2Q_le _ _ e) in L. apply Qle_not_lt in L. contradiction.
Qed.

Lemma F2Q_bpow d e : 0 <= d -> (F2Q (2 ^ d) e == Qpower 2 (d + e))%Q.
Proof.
  intros H. unfold F2Q. rewrite bpow_add, <- (bpow_Z d H). reflexivity.
Qed.

Lemma F2Q_0 e : (F2Q 0 e == 0)%Q.
Proof. unfold F2Q. ring. Qed.

(** *** Number of binary digits *)

Lemma digits2_size p : digits2_pos p = Pos.size p.
Proof. induction p; simpl; congruence. Qed.

Lemma Zdigits2_nonneg m : 0 <= Zdigits2 m.
Proof. destruct m; simpl; lia. Qed.

Lemma Zdigits2_bounds m :
  0 < m -> 2 ^ (Zdigits2 m - 1) <= m < 2 ^ Zdigits2 m.
Proof.
  destruct m as [| p | p]; try lia. intros _.
  change (Zdigits2 (Z.pos p)) with (Z.pos (digits2_pos p)).
  rewrite digits2_size.
  pose proof (Pos.size_gt p) as G. pose proof (Pos.size_le p) as L.
  apply Pos2Z.pos_lt_pos in G. apply Pos2Z.pos_le_pos in L.
  rewrite Pos2Z.inj_pow in G, L. change (Z.pos p~0) with (2 * Z.pos p) in L.
  set (d := Z.pos (Pos.size p)) in *.
  assert (E : 2 ^ d = 2 * 2 ^ (d - 1)).
  { rewrite <- Z.pow_succ_r by (subst d; lia). f_equal. lia. }
  split; lia.
Qed.

Lemma Zdigits2_unique m d :
  0 < d -> 2 ^ (d - 1) <= m < 2 ^ d -> Zdigits2 m = d.
Proof.
  intros Hd [L U].
  assert (Hm : 0 < m) by (pose proof (Z.pow_pos_nonneg 2 (d - 1)); lia).
  destruct (Zdigits2_bounds m Hm) as [L' U'].
  pose proof (Zdigits2_nonneg m) as N.
  assert (d - 1 < Zdigits2 m)
    by (apply (Z.pow_lt_mono_r_iff 2); lia).
  assert (Zdigits2 m - 1 < d)
    by (apply (Z.pow_lt_mono_r_iff 2); lia).
  lia.
Qed.

Lemma Zdigits2_pos m : 0 < m -> 0 < Zdigits2 m.
Proof. destruct m; simpl; lia. Qed.

Lemma Zdigits2_le a b : 0 <= a <= b -> Zdigits2 a <= Zdigits2 b.
Proof.
  intros [Ha Hab].
  destruct (Z.eq_dec a 0) as [-> | Na]; [apply Zdigits2_nonneg |].
  destruct (Zdigits2_bounds a) as [La Ua]; [lia |].
  destruct (Zdigits2_bounds b) as [Lb Ub]; [lia |].
  pose proof (Zdigits2_nonneg b).
  assert (Zdigits2 a - 1 < Zdigits2 b)
    by (apply (Z.pow_lt_mono_r_iff 2); lia).
  lia.
Qed.

Lemma Zdigits2_div_pow2 m n :
  0 <= m -> 0 <= n -> Zdigits2 (m / 2 ^ n) = Z.max (Zdigits2 m - n) 0.
Proof.
  intros Hm Hn.
  assert (P : 0 < 2 ^ n) by (apply Z.pow_pos_nonneg; lia).
  destruct (Z.eq_dec m 0) as [-> | Nm].
  { rewrite Z.div_0_l by lia. simpl. lia. }
  destruct (Zdigits2_bounds m) as [L U]; [lia |].
  pose proof (Zdigits2_pos m ltac:(lia)) as Dp.
  destruct (Z_lt_le_dec n (Zdigits2 m)) as [C | C].
  - rewrite Z.max_l by lia. apply Zdigits2_unique; [lia |]. split.
    + apply Z.div_le_lower_bound; [lia |].
      rewrite <- Z.pow_add_r by lia.
      replace (n + (Zdigits2 m - n - 1)) with (Zdigits2 m - 1) by lia. exact L.
    + apply Z.div_lt_upper_bound; [lia |].
      rewrite <- Z.pow_add_r by lia.
      replace (n + (Zdigits2 m - n)) with (Zdigits2 m) by lia. exact U.
  - rewrite Z.max_r by lia.
    rewrite Z.div_small; [reflexivity |]. split; [lia |].
    apply Z.lt_le_trans with (1 := U). apply Z.pow_le_mono_r; lia.
Qed.

(** *** Shifting right with a rounding record *)

Lemma shr_1_m r : 0 <= shr_m r -> shr_m (shr_1 r) = shr_m r / 2.
Proof.
  destruct r as [m b s]. cbn [shr_m]. intros Hm.
  destruct m as [| [p | p |] |]; cbn [shr_1 shr_m]; try reflexivity; try lia.
  - apply Z.div_unique with 1; lia.
  - apply Z.div_unique with 0; lia.
Qed.

Lemma shr_1_exact r :
  0 <= shr_m r -> shr_r r = false -> shr_s r = false -> (2 | shr_m r) ->
  shr_r (shr_1 r) = false /\ shr_s (shr_1 r) = false.
Proof.
  destruct r as [m b s]. cbn [shr_m shr_r shr_s]. intros Hm -> -> [k Hk].
  destruct m as [| [p | p |] |]; cbn; try lia; auto.
Qed.

Lemma iter_shr_m p :
  forall r, 0 <= shr_m r ->
  shr_m (iter_pos shr_1 p r) = shr_m r / 2 ^ Z.pos p.
Proof.
  induction p as [p IH | p IH |]; intros r Hr; cbn [iter_pos].
  - assert (H1 : 0 <= shr_m (shr_1 r))
      by (rewrite shr_1_m by exact Hr; apply Z.div_pos; lia).
    assert (H2 : 0 <= shr_m (iter_pos shr_1 p (shr_1 r)))
      by (rewrite IH by exact H1; apply Z.div_pos; [lia | apply Z.pow_pos_nonneg; lia]).
    rewrite IH, IH, shr_1_m by assumption.
    rewrite !Z.div_div by (try apply Z.pow_pos_nonneg; lia).
    f_equal. replace (Z.pos p~1) with (Z.pos p + Z.pos p + 1) by lia.
    rewrite !Z.pow_add_r by lia. ring.
  - assert (H2 : 0 <= shr_m (iter_pos shr_1 p r))
      by (rewrite IH by exact Hr; apply Z.div_pos; [lia | apply Z.pow_pos_nonneg; lia]).
    rewrite IH, IH by assumption.
    rewrite Z.div_div by (try apply Z.pow_pos_nonneg; lia).
    f_equal. replace (Z.pos p~0) with (Z.pos p + Z.pos p) by lia.
    rewrite !Z.pow_add_r by lia. ring.
  - rewrite shr_1_m by exact Hr. reflexivity.
Qed.

Lemma iter_shr_exact p :
  forall r, 0 <= shr_m r -> shr_r r = false -> shr_s r = false ->
  (2 ^ Z.pos p | shr_m r) ->
  shr_r (iter_pos shr_1 p r) = false /\ shr_s (iter_pos shr_1 p r) = false.
Proof.
  assert (P : forall q, 0 < 2 ^ Z.pos q) by (intros; apply Z.pow_pos_nonneg; lia).
  assert (D : forall q m k, m = k * (2 ^ Z.pos q * 2 ^ Z.pos q) ->
              m / 2 ^ Z.pos q = k * 2 ^ Z.pos q).
  { intros q m k ->. rewrite Z.mul_assoc. apply Z.div_mul. specialize (P q). lia. }
  induction p as [p IH | p IH |]; intros r Hr Rr Rs [k Hk]; cbn [iter_pos].
  - replace (Z.pos p~1) with (Z.pos p + Z.pos p + 1) in Hk by lia.
    rewrite !Z.pow_add_r in Hk by lia. change (2 ^ 1) with 2 in Hk.
    destruct (shr_1_exact r Hr Rr Rs) as [R1 S1].
    { exists (k * (2 ^ Z.pos p * 2 ^ Z.pos p)). rewrite Hk. ring. }
    assert (M1 : shr_m (shr_1 r) = k * (2 ^ Z.pos p * 2 ^ Z.pos p)).
    { rewrite shr_1_m by exact Hr. rewrite Hk.
      replace (k * (2 ^ Z.pos p * 2 ^ Z.pos p * 2))
        with (k * (2 ^ Z.pos p * 2 ^ Z.pos p) * 2) by ring.
      apply Z.div_mul. lia. }
    assert (H1 : 0 <= shr_m (shr_1 r))
      by (rewrite shr_1_m by exact Hr; apply Z.div_pos; lia).
    destruct (IH (shr_1 r) H1 R1 S1) as [R2 S2].
    { exists (k * 2 ^ Z.pos p). rewrite M1. ring. }
    apply IH; try assumption.
    + rewrite iter_shr_m by exact H1. apply Z.div_pos; [lia | apply P].
    + exists k. rewrite iter_shr_m by exact H1. apply D. exact M1.
  - replace (Z.pos p~0) with (Z.pos p + Z.pos p) in Hk by lia.
    rewrite !Z.pow_add_r in Hk by lia.
    destruct (IH r Hr Rr Rs) as [R2 S2].
    { exists (k * 2 ^ Z.pos p). rewrite Hk. ring. }
    apply IH; try assumption.
    + rewrite iter_shr_m by exact Hr. apply Z.div_pos; [lia | apply P].
    + exists k. rewrite iter_shr_m by exact Hr. apply D. exact Hk.
  - apply shr_1_exact; try assumption. exists k. exact Hk.
Qed.

Lemma loc_of_record_of_loc m l :
  loc_of_shr_record (shr_record_of_loc m l) = l
  /\ shr_m (shr_record_of_loc m l) = m.
Proof. destruct l as [| []]; split; reflexivity. Qed.

Lemma shr_fexp_spec m e l :
  0 <= m -> e <= fexp (Zdigits2 m + e) ->
  exists r,
    shr_fexp prec emax m e l = (r, fexp (Zdigits2 m + e))
    /\ shr_m r = m / 2 ^ (fexp (Zdigits2 m + e) - e)
    /\ (l = loc_Exact -> (2 ^ (fexp (Zdigits2 m + e) - e) | m) ->
        loc_of_shr_record r = loc_Exact).
Proof.
  intros Hm He. unfold shr_fexp, shr.
  set (n := fexp (Zdigits2 m + e) - e).
  assert (En : fexp (Zdigits2 m + e) = e + n) by (subst n; lia).
  assert (Hn : 0 <= n) by lia.
  destruct (loc_of_record_of_loc m l) as [Ll Lm].
  destruct n as [| p | p]; try lia.
  - exists (shr_record_of_loc m l). rewrite En, Z.add_0_r, Lm.
    repeat split; [now rewrite Z.div_1_r | intros; rewrite Ll; assumption].
  - exists (iter_pos shr_1 p (shr_record_of_loc m l)). rewrite En.
    split; [reflexivity |]. split.
    + rewrite iter_shr_m by (rewrite Lm; exact Hm). now rewrite Lm.
    + intros -> Dv.
      destruct (iter_shr_exact p (shr_record_of_loc m loc_Exact)) as [R S];
        try reflexivity; try assumption.
      destruct (iter_pos shr_1 p (shr_record_of_loc m loc_Exact)) as [m' r' s'].
      cbn in R, S. subst. reflexivity.
Qed.

Lemma round_nearest_even_cases m l :
  (round_nearest_even m l = m \/ round_nearest_even m l = m + 1)
  /\ (l = loc_Exact -> round_nearest_even m l = m).
Proof.
  destruct l as [| []]; cbn; try destruct (Z.even m);
    (split; [auto | intros; congruence]).
Qed.

(** *** The rounding step [binary_round_aux] *)

Lemma renormalize_spec m e :
  0 <= m <= 2 ^ 53 -> -1074 <= e -> e <= fexp (Zdigits2 m + e) ->
  exists r ef,
    shr_fexp prec emax m e loc_Exact = (r, ef)
    /\ 0 <= shr_m r /\ e <= ef /\ shr_m r * 2 ^ (ef - e) = m
    /\ (0 < shr_m r -> fexp (Zdigits2 (shr_m r) + ef) = ef).
Proof.
  intros [Hm Um] He Hf.
  destruct (shr_fexp_spec m e loc_Exact Hm Hf) as (r & E & M & _).
  exists r, (fexp (Zdigits2 m + e)). split; [exact E |].
  destruct (Z.eq_dec m (2 ^ 53)) as [-> | Nm].
  - change (Zdigits2 (2 ^ 53)) with 54 in *. rewrite fexp_eq in *.
    assert (Q : Z.max (54 + e - 53) (-1074) = e + 1) by lia.
    rewrite Q in *. clear Q.
    replace (e + 1 - e) with 1 in * by lia.
    change (2 ^ 53 / 2 ^ 1) with (2 ^ 52) in M. rewrite M.
    change (Zdigits2 (2 ^ 52)) with 53. rewrite fexp_eq.
    repeat split; lia.
  - assert (D : Zdigits2 m <= 53).
    { change 53 with (Zdigits2 (2 ^ 53 - 1)). apply Zdigits2_le. lia. }
    rewrite fexp_eq in *.
    assert (Q : Z.max (Zdigits2 m + e - 53) (-1074) = e) by lia.
    rewrite Q in M |- *.
    rewrite Z.sub_diag, Z.div_1_r in M. rewrite M, Z.sub_diag, Z.mul_1_r.
    repeat split; try lia. intros _. rewrite fexp_eq. exact Q.
Qed.

Lemma bra_unfold s mx ex lx :
  binary_round_aux prec emax s mx ex lx =
  let '(mrs', e') := shr_fexp prec emax mx ex lx in
  let '(mrs'', e'') :=
    shr_fexp prec emax
      (round_nearest_even (shr_m mrs') (loc_of_shr_record mrs')) e' loc_Exact in
  pack s (shr_m mrs'') e''.
Proof. reflexivity. Qed.

Lemma bra_spec s mx ex lx :
  0 <= mx -> ex <= fexp (Zdigits2 mx + ex) ->
  exists mf ef,
    binary_round_aux prec emax s mx ex lx = pack s mf ef
    /\ 0 <= mf /\ fexp (Zdigits2 mx + ex) <= ef
    /\ (0 < mf -> fexp (Zdigits2 mf + ef) = ef)
    /\ (mf * 2 ^ (ef - fexp (Zdigits2 mx + ex))
          = mx / 2 ^ (fexp (Zdigits2 mx + ex) - ex)
        \/ mf * 2 ^ (ef - fexp (Zdigits2 mx + ex))
          = mx / 2 ^ (fexp (Zdigits2 mx + ex) - ex) + 1)
    /\ (lx = loc_Exact -> (2 ^ (fexp (Zdigits2 mx + ex) - ex) | mx) ->
        mf * 2 ^ (ef - fexp (Zdigits2 mx + ex))
          = mx / 2 ^ (fexp (Zdigits2 mx + ex) - ex)).
Proof.
  intros Hm Hf.
  destruct (shr_fexp_spec mx ex lx Hm Hf) as (r1 & E1 & M1 & X1).
  set (e1 := fexp (Zdigits2 mx + ex)) in *.
  set (n := e1 - ex) in *.
  assert (Hn : 0 <= n) by (subst n; lia).
  assert (Pn : 0 < 2 ^ n) by (apply Z.pow_pos_nonneg; lia).
  set (m1 := mx / 2 ^ n) in *.
  assert (Hm1 : 0 <= m1) by (apply Z.div_pos; lia).
  assert (D1 : Zdigits2 m1 = Z.max (Zdigits2 mx - n) 0)
    by (apply Zdigits2_div_pow2; lia).
  assert (He1 : e1 = Z.max (Zdigits2 mx + ex - 53) (-1074)) by reflexivity.
  assert (U1 : m1 < 2 ^ 53).
  { destruct (Z.eq_dec m1 0) as [-> | N1]; [reflexivity |].
    destruct (Zdigits2_bounds m1) as [_ U]; [lia |].
    apply Z.lt_le_trans with (1 := U). apply Z.pow_le_mono_r; lia. }
  destruct (round_nearest_even_cases (shr_m r1) (loc_of_shr_record r1)) as [C X].
  rewrite M1 in C, X.
  set (m2 := round_nearest_even m1 (loc_of_shr_record r1)) in *.
  assert (F2 : e1 <= fexp (Zdigits2 m2 + e1)).
  { rewrite fexp_eq.
    destruct (Z.eq_dec e1 (-1074)) as [-> | Ne]; [lia |].
    assert (Zdigits2 m1 <= Zdigits2 m2) by (apply Zdigits2_le; lia).
    lia. }
  destruct (renormalize_spec m2 e1) as (r2 & ef & E2 & P2 & L2 & V2 & K2);
    [lia | lia | exact F2 |].
  exists (shr_m r2), ef.
  rewrite bra_unfold, E1, M1. fold m2. rewrite E2.
  split; [reflexivity |]. split; [exact P2 |]. split; [exact L2 |].
  split; [exact K2 |]. rewrite V2. split; [exact C |].
  intros Lx Dv. apply X, X1; assumption.
Qed.

(** *** Canonical mantissas and exponents *)

Lemma valid_finite_iff s m e :
  valid (S754_finite s m e) = true <-> canonical (Z.pos m) e /\ e <= 971.
Proof.
  unfold valid, valid_binary, bounded, canonical_mantissa, canonical.
  rewrite andb_true_iff, Z.eqb_eq, Z.leb_le. reflexivity.
Qed.

Lemma canonical_emin m e : canonical m e -> -1074 <= e.
Proof. unfold canonical. rewrite fexp_eq. lia. Qed.

Lemma canonical_digits m e : canonical m e -> Zdigits2 m <= 53.
Proof. unfold canonical. rewrite fexp_eq. lia. Qed.

Lemma canonical_lt m e : 0 < m -> canonical m e -> m < 2 ^ 53.
Proof.
  intros Hm C. destruct (Zdigits2_bounds m Hm) as [_ U].
  apply Z.lt_le_trans with (1 := U).
  apply Z.pow_le_mono_r; [lia | apply (canonical_digits m e C)].
Qed.

Lemma canonical_normal m e : 0 < m -> canonical m e -> -1074 < e -> 2 ^ 52 <= m.
Proof.
  intros Hm C He. destruct (Zdigits2_bounds m Hm) as [L _].
  unfold canonical in C. rewrite fexp_eq in C.
  replace (Zdigits2 m) with 53 in L by lia. exact L.
Qed.

Lemma pack_valid s m e :
  0 <= m -> (0 < m -> canonical m e) -> valid (pack s m e) = true.
Proof.
  intros Hm C. destruct m as [| p | p]; try lia; [reflexivity |].
  unfold pack. change (emax - prec) with 971.
  destruct (Z.leb_spec e 971) as [L | L]; [| reflexivity].
  apply valid_finite_iff. split; [apply C; lia | exact L].
Qed.

Lemma F2Q_align m e e0 :
  e0 <= e -> (F2Q m e == F2Q (m * 2 ^ (e - e0)) e0)%Q.
Proof.
  intros H. rewrite F2Q_shift by lia.
  replace (e0 + (e - e0)) with e by lia. reflexivity.
Qed.

Lemma F2Q_lt_bpow m e d : 0 <= d -> m < 2 ^ d -> (F2Q m e < Qpower 2 (d + e))%Q.
Proof.
  intros Hd H. rewrite <- (F2Q_bpow d e Hd). apply F2Q_lt. exact H.
Qed.

Lemma F2Q_ge_bpow m e d : 0 <= d -> 2 ^ d <= m -> (Qpower 2 (d + e) <= F2Q m e)%Q.
Proof.
  intros Hd H. rewrite <- (F2Q_bpow d e Hd). apply F2Q_le. exact H.
Qed.

(** Between canonical pairs the order of the values is the lexicographic
    order on exponent and mantissa. *)
Lemma canonical_lt_exp m e m' e' :
  0 < m -> 0 < m' -> canonical m e -> canonical m' e' -> e < e' ->
  (F2Q m e < F2Q m' e')%Q.
Proof.
  intros Hm Hm' C C' L.
  pose proof (canonical_emin m e C) as E.
  apply Qlt_le_trans with (Qpower 2 (53 + e)).
  - apply F2Q_lt_bpow; [lia | apply (canonical_lt m e Hm C)].
  - apply Qle_trans with (Qpower 2 (52 + e')).
    + apply bpow_le. lia.
    + apply F2Q_ge_bpow; [lia |]. apply (canonical_normal m' e' Hm' C'). lia.
Qed.

Lemma canonical_le_exp m e m' e' :
  0 < m -> 0 < m' -> canonical m e -> canonical m' e' ->
  (F2Q m e <= F2Q m' e')%Q -> e <= e'.
Proof.
  intros Hm Hm' C C' L. destruct (Z_lt_le_dec e' e) as [G | G]; [| exact G].
  apply (canonical_lt_exp m' e' m e Hm' Hm C' C) in G.
  apply Qlt_not_le in G. contradiction.
Qed.

Lemma truncation_facts mx ex :
  0 <= mx -> ex <= fexp (Zdigits2 mx + ex) ->
  mx / 2 ^ (fexp (Zdigits2 mx + ex) - ex) < 2 ^ 53
  /\ (-1074 < fexp (Zdigits2 mx + ex) ->
      2 ^ 52 <= mx / 2 ^ (fexp (Zdigits2 mx + ex) - ex)).
Proof.
  intros Hm Hf.
  set (e1 := fexp (Zdigits2 mx + ex)) in *.
  set (n := e1 - ex) in *.
  assert (Hn : 0 <= n) by (subst n; lia).
  assert (Pn : 0 < 2 ^ n) by (apply Z.pow_pos_nonneg; lia).
  set (m1 := mx / 2 ^ n) in *.
  assert (Hm1 : 0 <= m1) by (apply Z.div_pos; lia).
  assert (D1 : Zdigits2 m1 = Z.max (Zdigits2 mx - n) 0)
    by (apply Zdigits2_div_pow2; lia).
  assert (He1 : e1 = Z.max (Zdigits2 mx + ex - 53) (-1074)) by reflexivity.
  split.
  - destruct (Z.eq_dec m1 0) as [-> | N1]; [reflexivity |].
    destruct (Zdigits2_bounds m1) as [_ U]; [lia |].
    apply Z.lt_le_trans with (1 := U). apply Z.pow_le_mono_r; lia.
  - intros G.
    assert (D53 : Zdigits2 m1 = 53) by lia.
    assert (N1 : 0 < m1).
    { destruct (Z.eq_dec m1 0) as [Z0 | N1]; [| lia].
      rewrite Z0 in D53. discriminate. }
    destruct (Zdigits2_bounds m1 N1) as [L _]. rewrite D53 in L. exact L.
Qed.

(** The result of [binary_round_aux] on an approximation [(mx, ex, lx)] of
    [v] stays on the same side of every canonical datum as [v]. *)
Lemma bra_between s mx ex lx v :
  0 <= mx -> ex <= fexp (Zdigits2 mx + ex) ->
  (F2Q mx ex <= v)%Q -> (v < F2Q (mx + 1) ex)%Q ->
  ((v == F2Q mx ex)%Q -> lx = loc_Exact) ->
  exists mf ef,
    binary_round_aux prec emax s mx ex lx = pack s mf ef
    /\ 0 <= mf /\ (0 < mf -> canonical mf ef)
    /\ (forall mh eh, 0 < mh -> canonical mh eh ->
        (v <= F2Q mh eh)%Q -> (F2Q mf ef <= F2Q mh eh)%Q)
    /\ (forall ml el, 0 < ml -> canonical ml el ->
        (F2Q ml el <= v)%Q -> (F2Q ml el <= F2Q mf ef)%Q).
Proof.
  intros Hm Hf Lv Uv Xv.
  destruct (bra_spec s mx ex lx Hm Hf) as (mf & ef & E & Pf & Le & Cf & Cv & Xf).
  destruct (truncation_facts mx ex Hm Hf) as [U1 N1].
  assert (He1 : -1074 <= fexp (Zdigits2 mx + ex)) by (rewrite fexp_eq; lia).
  set (e1 := fexp (Zdigits2 mx + ex)) in *.
  set (n := e1 - ex) in *.
  assert (Hn : 0 <= n) by (subst n; lia).
  assert (Pn : 0 < 2 ^ n) by (apply Z.pow_pos_nonneg; lia).
  set (m1 := mx / 2 ^ n) in *.
  assert (Dm : m1 * 2 ^ n <= mx < (m1 + 1) * 2 ^ n).
  { pose proof (Z.div_mod mx (2 ^ n) ltac:(lia)) as D.
    pose proof (Z.mod_pos_bound mx (2 ^ n) Pn) as B. fold m1 in D. lia. }
  assert (Vf : (F2Q mf ef == F2Q (mf * 2 ^ (ef - e1)) e1)%Q)
    by (apply F2Q_align; lia).
  assert (A1 : forall m, (F2Q m e1 == F2Q (m * 2 ^ n) ex)%Q)
    by (intros m; apply F2Q_align; lia).
  assert (L1 : (F2Q m1 e1 <= v)%Q).
  { apply Qle_trans with (2 := Lv). rewrite A1. apply F2Q_le. lia. }
  assert (U1v : (v < F2Q (m1 + 1) e1)%Q).
  { apply Qlt_le_trans with (1 := Uv). rewrite A1. apply F2Q_le. lia. }
  exists mf, ef. split; [exact E |]. split; [exact Pf |]. split; [exact Cf |].
  split.
  - intros mh eh Hmh Ch Hv. rewrite Vf.
    destruct (Z_lt_le_dec eh e1) as [G | G].
    + exfalso. pose proof (canonical_emin mh eh Ch) as Eh.
      assert (B : (F2Q mh eh < F2Q m1 e1)%Q).
      { apply Qlt_le_trans with (Qpower 2 (53 + eh)).
        - apply F2Q_lt_bpow; [lia | apply (canonical_lt mh eh Hmh Ch)].
        - apply Qle_trans with (Qpower 2 (52 + e1)).
          + apply bpow_le. lia.
          + apply F2Q_ge_bpow; [lia | apply N1; lia]. }
      lra.
    + pose proof (F2Q_align mh eh e1 G) as Ah.
      set (N := mh * 2 ^ (eh - e1)) in *.
      assert (LN : m1 <= N) by (apply (F2Q_le_inv _ _ e1); lra).
      destruct (Z.eq_dec m1 N) as [EN | NN].
      * assert (Ev : (v == F2Q m1 e1)%Q) by (rewrite <- EN in Ah; lra).
        assert (Em : mx = m1 * 2 ^ n).
        { assert (mx <= m1 * 2 ^ n); [| lia].
          apply (F2Q_le_inv _ _ ex). rewrite <- A1. lra. }
        rewrite Xf.
        -- rewrite Ah. apply F2Q_le. exact LN.
        -- apply Xv. rewrite Ev, A1, <- Em. reflexivity.
        -- exists m1. exact Em.
      * rewrite Ah. apply F2Q_le. lia.
  - intros ml el Hml Cl Hv. rewrite Vf.
    destruct (Z_lt_le_dec e1 el) as [G | G].
    + exfalso.
      assert (B : (F2Q (m1 + 1) e1 <= F2Q ml el)%Q).
      { apply Qle_trans with (Qpower 2 (53 + e1)).
        - rewrite <- (F2Q_bpow 53 e1) by lia. apply F2Q_le. lia.
        - apply Qle_trans with (Qpower 2 (52 + el)).
          + apply bpow_le. lia.
          + apply F2Q_ge_bpow; [lia |].
            apply (canonical_normal ml el Hml Cl). lia. }
      lra.
    + destruct (Z.eq_dec el e1) as [-> | Ne].
      * apply F2Q_le.
        assert (ml < m1 + 1) by (apply (F2Q_lt_inv _ _ e1); lra).
        lia.
      * pose proof (canonical_emin ml el Cl) as El.
        apply Qle_trans with (F2Q m1 e1); [| apply F2Q_le; lia].
        apply Qlt_le_weak.
        apply Qlt_le_trans with (Qpower 2 (53 + el)).
        -- apply F2Q_lt_bpow; [lia | apply (canonical_lt ml el Hml Cl)].
        -- apply Qle_trans with (Qpower 2 (52 + e1)).
           ++ apply bpow_le. lia.
           ++ apply F2Q_ge_bpow; [lia | apply N1; lia].
Qed.

(** *** Division *)

Lemma F2Q_mul a e b e' : (F2Q a e * F2Q b e' == F2Q (a * b) (e + e'))%Q.
Proof. unfold F2Q. rewrite inject_Z_mult, bpow_add. ring. Qed.

Lemma F2Q_pos m e : 0 < m -> (0 < F2Q m e)%Q.
Proof. intros H. rewrite <- (F2Q_0 e). apply F2Q_lt. exact H. Qed.

Lemma Zdigits2_pow2 t : 0 <= t -> Zdigits2 (2 ^ t) = t + 1.
Proof.
  intros H. apply Zdigits2_unique; [lia |].
  replace (t + 1 - 1) with t by lia. split; [lia |].
  apply Z.pow_lt_mono_r; lia.
Qed.

Lemma new_location_exact n : new_location n 0 = loc_Exact.
Proof. unfold new_location. destruct (Z.even n); reflexivity. Qed.

Lemma div_core_spec (m1 m2 : positive) e1 e2 :
  exists q e' l,
    SFdiv_core_binary prec emax (Z.pos m1) e1 (Z.pos m2) e2 = (q, e', l)
    /\ 0 <= q /\ e' <= fexp (Zdigits2 q + e')
    /\ (F2Q q e' <= F2Q (Z.pos m1) e1 / F2Q (Z.pos m2) e2)%Q
    /\ (F2Q (Z.pos m1) e1 / F2Q (Z.pos m2) e2 < F2Q (q + 1) e')%Q
    /\ ((F2Q (Z.pos m1) e1 / F2Q (Z.pos m2) e2 == F2Q q e')%Q -> l = loc_Exact).
Proof.
  unfold SFdiv_core_binary.
  set (d1 := Zdigits2 (Z.pos m1)). set (d2 := Zdigits2 (Z.pos m2)).
  set (e' := Z.min (fexp (d1 + e1 - (d2 + e2))) (e1 - e2)).
  set (s := e1 - e2 - e').
  assert (Hs : 0 <= s) by (subst s e'; lia).
  set (m' := match s with
             | 0 => Z.pos m1
             | Z.pos _ => Z.shiftl (Z.pos m1) s
             | Z.neg _ => 0
             end).
  assert (Em : m' = Z.pos m1 * 2 ^ s).
  { subst m'. destruct s as [| p | p] eqn:Es; try lia.
    apply Z.shiftl_mul_pow2. lia. }
  pose proof (Z_div_mod m' (Z.pos m2) ltac:(lia)) as DM.
  destruct (Z.div_eucl m' (Z.pos m2)) as [q r]. destruct DM as [DM Rr].
  assert (Ps : 0 < 2 ^ s) by (apply Z.pow_pos_nonneg; lia).
  assert (Hq : 0 <= q) by nia.
  exists q, e', (new_location (Z.pos m2) r).
  split; [reflexivity |]. split; [exact Hq |].
  set (D := F2Q (Z.pos m2) e2).
  assert (PD : (0 < D)%Q) by (apply F2Q_pos; lia).
  assert (A : (F2Q (Z.pos m1) e1 == F2Q m' (e' + e2))%Q).
  { rewrite (F2Q_align (Z.pos m1) e1 (e' + e2)) by (subst s; lia).
    rewrite Em. replace (e1 - (e' + e2)) with s by (subst s; lia). reflexivity. }
  assert (M : forall k, (F2Q k e' * D == F2Q (k * Z.pos m2) (e' + e2))%Q)
    by (intros k; apply F2Q_mul).
  split; [| split; [| split]].
  - assert (Se : s = e1 - e2 - e') by reflexivity.
    assert (Ee : e' = Z.min (Z.max (d1 + e1 - (d2 + e2) - 53) (-1074)) (e1 - e2))
      by reflexivity.
    clearbody m' s e'. rewrite fexp_eq.
    destruct (Z_le_gt_dec (d1 - d2 + s) 0) as [C | C].
    + pose proof (Zdigits2_nonneg q). lia.
    + assert (T : 2 ^ (d1 - d2 + s - 1) <= q).
      { destruct (Zdigits2_bounds (Z.pos m1)) as [L1 _]; [lia |].
        destruct (Zdigits2_bounds (Z.pos m2)) as [_ U2]; [lia |].
        fold d1 in L1. fold d2 in U2.
        pose proof (Zdigits2_pos (Z.pos m2) ltac:(lia)) as P2. fold d2 in P2.
        pose proof (Zdigits2_pos (Z.pos m1) ltac:(lia)) as P1. fold d1 in P1.
        assert (X : 2 ^ d2 * 2 ^ (d1 - d2 + s - 1) = 2 ^ (d1 - 1) * 2 ^ s).
        { rewrite <- !Z.pow_add_r by lia. f_equal. lia. }
        assert (Pt : 0 < 2 ^ (d1 - d2 + s - 1)) by (apply Z.pow_pos_nonneg; lia).
        destruct (Z_lt_le_dec q (2 ^ (d1 - d2 + s - 1))) as [Lt | Le]; [| exact Le].
        exfalso. nia. }
      assert (Zdigits2 (2 ^ (d1 - d2 + s - 1)) <= Zdigits2 q).
      { apply Zdigits2_le. split; [| exact T]. apply Z.pow_nonneg. lia. }
      rewrite Zdigits2_pow2 in * by lia. lia.
  - apply Qle_shift_div_l; [exact PD |]. rewrite M, A. apply F2Q_le. nia.
  - apply Qlt_shift_div_r; [exact PD |]. rewrite M, A. apply F2Q_lt. nia.
  - intros Ev.
    assert (X : (F2Q m' (e' + e2) == F2Q (q * Z.pos m2) (e' + e2))%Q).
    { rewrite <- A, <- M, <- Ev. field. apply Qnot_eq_sym, Qlt_not_eq, PD. }
    assert (m' <= q * Z.pos m2) by (apply (F2Q_le_inv _ _ (e' + e2)); rewrite X; apply Qle_refl).
    assert (r = 0) by lia. subst r. apply new_location_exact.
Qed.

Lemma div_rounds sx mx ex sy my ey :
  rounds_to (F2Q (Z.pos mx) ex / F2Q (Z.pos my) ey) (xorb sx sy)
    (div (S754_finite sx mx ex) (S754_finite sy my ey)).
Proof.
  destruct (div_core_spec mx my ex ey) as (q & e' & l & E & Hq & Hf & L & U & X).
  unfold div, SFdiv. rewrite E. apply bra_between; assumption.
Qed.

(** *** Multiplication *)

Lemma Zdigits2_mul a b :
  0 < a -> 0 < b -> Zdigits2 a + Zdigits2 b - 1 <= Zdigits2 (a * b).
Proof.
  intros Ha Hb.
  destruct (Zdigits2_bounds a Ha) as [La _].
  destruct (Zdigits2_bounds b Hb) as [Lb _].
  pose proof (Zdigits2_pos a Ha). pose proof (Zdigits2_pos b Hb).
  assert (T : 2 ^ (Zdigits2 a + Zdigits2 b - 2) <= a * b).
  { replace (Zdigits2 a + Zdigits2 b - 2)
      with ((Zdigits2 a - 1) + (Zdigits2 b - 1)) by lia.
    rewrite Z.pow_add_r by lia.
    assert (0 < 2 ^ (Zdigits2 a - 1)) by (apply Z.pow_pos_nonneg; lia).
    assert (0 < 2 ^ (Zdigits2 b - 1)) by (apply Z.pow_pos_nonneg; lia).
    nia. }
  assert (Zdigits2 (2 ^ (Zdigits2 a + Zdigits2 b - 2)) <= Zdigits2 (a * b)).
  { apply Zdigits2_le. split; [apply Z.pow_nonneg; lia | exact T]. }
  rewrite Zdigits2_pow2 in * by lia. lia.
Qed.

Lemma mul_rounds sx mx ex sy my ey :
  canonical (Z.pos mx) ex -> canonical (Z.pos my) ey ->
  rounds_to (F2Q (Z.pos mx) ex * F2Q (Z.pos my) ey) (xorb sx sy)
    (mul (S754_finite sx mx ex) (S754_finite sy my ey)).
Proof.
  intros Cx Cy. unfold mul, SFmul.
  change (Z.pos (mx * my)) with (Z.pos mx * Z.pos my).
  apply bra_between.
  - lia.
  - pose proof (Zdigits2_mul (Z.pos mx) (Z.pos my) ltac:(lia) ltac:(lia)).
    pose proof (Zdigits2_pos (Z.pos mx) ltac:(lia)).
    pose proof (Zdigits2_pos (Z.pos my) ltac:(lia)).
    unfold canonical in Cx, Cy. rewrite fexp_eq in *. lia.
  - rewrite F2Q_mul. apply Qle_refl.
  - rewrite F2Q_mul. apply F2Q_lt. lia.
  - reflexivity.
Qed.

(** *** Rounding an integer multiple of a power of two *)

Lemma iter_xO m d : Z.pos (Pos.iter xO m d) = Z.pos m * 2 ^ Z.pos d.
Proof.
  change (Pos.iter xO m d) with (shift_pos d m).
  rewrite shift_pos_correct, Z.pow_pos_fold. ring.
Qed.

Lemma shl_align_spec mx ex ex' :
  let '(mz, ez) := shl_align mx ex ex' in
  ez <= ex /\ Z.pos mz = Z.pos mx * 2 ^ (ex - ez)
  /\ (ex' <= ex -> ez = ex') /\ (ex <= ex' -> ez = ex).
Proof.
  unfold shl_align. destruct (ex' - ex) as [| d | d] eqn:E.
  - rewrite Z.sub_diag. repeat split; lia.
  - rewrite Z.sub_diag. repeat split; lia.
  - replace (ex - ex') with (Z.pos d) by lia. rewrite iter_xO.
    repeat split; lia.
Qed.

Lemma binary_round_rounds s m e :
  rounds_to (F2Q (Z.pos m) e) s (binary_round prec emax s m e).
Proof.
  unfold binary_round.
  pose proof (shl_align_spec m e (fexp (Z.pos (digits2_pos m) + e))) as A.
  destruct (shl_align m e (fexp (Z.pos (digits2_pos m) + e))) as [mz ez].
  destruct A as (Le & Em & A1 & A2).
  assert (V : (F2Q (Z.pos m) e == F2Q (Z.pos mz) ez)%Q).
  { rewrite Em. apply F2Q_align. exact Le. }
  assert (Dz : Zdigits2 (Z.pos mz) + ez = Zdigits2 (Z.pos m) + e).
  { destruct (Zdigits2_bounds (Z.pos m)) as [L U]; [lia |].
    pose proof (Zdigits2_pos (Z.pos m) ltac:(lia)) as P.
    assert (Zdigits2 (Z.pos mz) = Zdigits2 (Z.pos m) + (e - ez)); [| lia].
    apply Zdigits2_unique; [lia |]. rewrite Em.
    replace (Zdigits2 (Z.pos m) + (e - ez) - 1)
      with ((Zdigits2 (Z.pos m) - 1) + (e - ez)) by lia.
    rewrite !Z.pow_add_r by lia.
    assert (0 < 2 ^ (e - ez)) by (apply Z.pow_pos_nonneg; lia).
    split; nia. }
  apply bra_between.
  - lia.
  - rewrite Dz. change (Zdigits2 (Z.pos m)) with (Z.pos (digits2_pos m)).
    destruct (Z_le_gt_dec (fexp (Z.pos (digits2_pos m) + e)) e) as [C | C].
    + rewrite (A1 C). lia.
    + rewrite (A2 ltac:(lia)). lia.
  - rewrite V. apply Qle_refl.
  - rewrite V. apply F2Q_lt. lia.
  - reflexivity.
Qed.

(** *** Consequences for well-formed positive data *)

Lemma posFinite_inv x :
  posFinite x ->
  exists m e, x = S754_finite false m e /\ canonical (Z.pos m) e /\ e <= 971.
Proof.
  destruct x as [| | | [] m e]; cbn; try contradiction.
  intros V. exists m, e. split; [reflexivity |]. apply (valid_finite_iff false), V.
Qed.

Lemma toQ_finite s m e :
  toQ (S754_finite s m e) = F2Q (if s then Z.neg m else Z.pos m) e.
Proof. reflexivity. Qed.

Lemma rounds_to_valid v s x : rounds_to v s x -> valid x = true.
Proof.
  intros (mf & ef & -> & P & C & _). apply pack_valid; assumption.
Qed.

Lemma rounds_to_bounds v x lo hi :
  rounds_to v false x -> posFinite lo -> posFinite hi ->
  (toQ lo <= v)%Q -> (v <= toQ hi)%Q ->
  posFinite x /\ (toQ lo <= toQ x)%Q /\ (toQ x <= toQ hi)%Q.
Proof.
  intros (mf & ef & -> & P & C & U & L) Hlo Hhi Lv Uv.
  destruct (posFinite_inv lo Hlo) as (ml & el & -> & Cl & Bl).
  destruct (posFinite_inv hi Hhi) as (mh & eh & -> & Ch & Bh).
  rewrite toQ_finite in *.
  specialize (U (Z.pos mh) eh ltac:(lia) Ch Uv).
  specialize (L (Z.pos ml) el ltac:(lia) Cl Lv).
  assert (Pm : 0 < mf).
  { apply (F2Q_lt_inv _ _ ef). rewrite F2Q_0.
    apply Qlt_le_trans with (2 := L). apply F2Q_pos. lia. }
  specialize (C Pm).
  pose proof (canonical_le_exp mf ef (Z.pos mh) eh Pm ltac:(lia) C Ch U) as Le.
  destruct mf as [| pf | pf]; try lia.
  unfold pack. change (emax - prec) with 971.
  destruct (Z.leb_spec ef 971) as [B | B]; [| lia].
  split; [| split; [exact L | exact U]].
  cbn. apply (valid_finite_iff false). split; assumption.
Qed.

Lemma rounds_to_upper v x hi :
  rounds_to v false x -> posFinite hi -> (v <= toQ hi)%Q ->
  x = S754_zero false \/ (posFinite x /\ (toQ x <= toQ hi)%Q).
Proof.
  intros (mf & ef & -> & P & C & U & _) Hhi Uv.
  destruct (posFinite_inv hi Hhi) as (mh & eh & -> & Ch & Bh).
  rewrite toQ_finite in *.
  specialize (U (Z.pos mh) eh ltac:(lia) Ch Uv).
  destruct mf as [| pf | pf]; try lia; [left; reflexivity | right].
  specialize (C ltac:(lia)).
  pose proof (canonical_le_exp (Z.pos pf) ef (Z.pos mh) eh
                ltac:(lia) ltac:(lia) C Ch U) as Le.
  unfold pack. change (emax - prec) with 971.
  destruct (Z.leb_spec ef 971) as [B | B]; [| lia].
  split; [| exact U].
  cbn. apply (valid_finite_iff false). split; assumption.
Qed.

(** On well-formed positive data [<=] and [<] are those of the values. *)
Lemma posFinite_compare x y :
  posFinite x -> posFinite y ->
  SFcompare x y = Some (Qcompare (toQ x) (toQ y)).
Proof.
  intros Hx Hy.
  destruct (posFinite_inv x Hx) as (mx & ex & -> & Cx & _).
  destruct (posFinite_inv y Hy) as (my & ey & -> & Cy & _).
  rewrite !toQ_finite. cbn [SFcompare]. f_equal. symmetry.
  destruct (Z.compare_spec ex ey) as [E | L | G].
  - subst ey. change (Pos.compare_cont Eq mx my) with (Z.pos mx ?= Z.pos my).
    destruct (Z.compare_spec (Z.pos mx) (Z.pos my)) as [E | L | G].
    + rewrite E. apply Qeq_alt. reflexivity.
    + apply Qlt_alt, F2Q_lt. exact L.
    + apply Qgt_alt, F2Q_lt. exact G.
  - apply Qlt_alt, canonical_lt_exp; try assumption; lia.
  - apply Qgt_alt, canonical_lt_exp; try assumption; lia.
Qed.

Lemma posFinite_leb x y :
  posFinite x -> posFinite y -> (leb x y = true <-> (toQ x <= toQ y)%Q).
Proof.
  intros Hx Hy. unfold leb, SFleb. rewrite (posFinite_compare x y Hx Hy).
  rewrite Qle_alt. destruct (toQ x ?= toQ y)%Q; split; congruence.
Qed.

Lemma posFinite_ltb x y :
  posFinite x -> posFinite y -> (ltb x y = true <-> (toQ x < toQ y)%Q).
Proof.
  intros Hx Hy. unfold ltb, SFltb. rewrite (posFinite_compare x y Hx Hy).
  rewrite Qlt_alt. destruct (toQ x ?= toQ y)%Q; split; congruence.
Qed.

(** *** Parsed numbers are well formed *)

Lemma ofRatio_valid s p q : valid (ofRatio s p q) = true.
Proof. apply (rounds_to_valid _ _ _ (div_rounds s p 0 false q 0)). Qed.

Lemma ofDecimal_valid s m e : valid (ofDecimal s m e) = true.
Proof.
  destruct m as [| p]; [reflexivity |].
  destruct e; apply ofRatio_valid.
Qed.

Lemma parseFloat_valid s : valid (parseFloat s) = true.
Proof.
  unfold parseFloat.
  destruct (match trimStart s with
            | String "+"%char r => (false, r)
            | String "-"%char r => (true, r)
            | _ => (false, trimStart s)
            end) as [neg unsigned].
  destruct (lexUnsigned unsigned) as [[| int frac e] |]; try reflexivity.
  apply ofDecimal_valid.
Qed.

(** A well-formed number that is neither NaN, nor below [lo], nor above
    [hi] is positive, finite and between the two. *)
Lemma in_range_posFinite v lo hi :
  valid v = true -> posFinite lo -> posFinite hi ->
  isNaN v = false -> ltb v lo = false -> gtb v hi = false ->
  posFinite v /\ (toQ lo <= toQ v)%Q /\ (toQ v <= toQ hi)%Q.
Proof.
  intros V Hlo Hhi N L G.
  assert (P : posFinite v).
  { destruct (posFinite_inv lo Hlo) as (ml & el & -> & _).
    destruct (posFinite_inv hi Hhi) as (mh & eh & -> & _).
    destruct v as [[] | [] | | [] m e]; try discriminate; exact V. }
  split; [exact P |]. split.
  - apply Qnot_lt_le. intros C.
    apply (posFinite_ltb v lo P Hlo) in C. congruence.
  - apply Qnot_lt_le. intros C.
    apply (posFinite_ltb hi v Hhi P) in C. unfold gtb in G. unfold ltb in C.
    congruence.
Qed.

Lemma div_posFinite x y :
  posFinite x -> posFinite y -> rounds_to (toQ x / toQ y) false (div x y).
Proof.
  intros Hx Hy.
  destruct (posFinite_inv x Hx) as (mx & ex & -> & _).
  destruct (posFinite_inv y Hy) as (my & ey & -> & _).
  exact (div_rounds false mx ex false my ey).
Qed.

Lemma mul_posFinite x y :
  posFinite x -> posFinite y -> rounds_to (toQ x * toQ y) false (mul x y).
Proof.
  intros Hx Hy.
  destruct (posFinite_inv x Hx) as (mx & ex & -> & Cx & _).
  destruct (posFinite_inv y Hy) as (my & ey & -> & Cy & _).
  exact (mul_rounds false mx ex false my ey Cx Cy).
Qed.

(** ** The quotient of validated inputs *)

Lemma toQ_num_100 : (toQ num_100 == 100)%Q.
Proof. vm_compute. reflexivity. Qed.

(** For a height between 50 and 250 and a weight between 20 and 500 the
    quotient of lines 100-103 is a finite number between 3 and 2000. *)
Lemma quotient_bounds h w :
  posFinite h -> posFinite w ->
  (50 <= toQ h)%Q -> (toQ h <= 250)%Q -> (20 <= toQ w)%Q -> (toQ w <= 500)%Q ->
  posFinite (div w (mul (div h num_100) (div h num_100)))
  /\ (3 <= toQ (div w (mul (div h num_100) (div h num_100))))%Q
  /\ (toQ (div w (mul (div h num_100) (div h num_100))) <= 2000)%Q.
Proof.
  intros Hh Hw Lh Uh Lw Uw.
  assert (H100 : posFinite num_100) by reflexivity.
  (* heightInMeters lies between 0.5 and 2.5 *)
  pose (lo1 := S754_finite false 4503599627370496 (-53)).
  pose (hi1 := S754_finite false 5629499534213120 (-51)).
  assert (Elo1 : (toQ lo1 == 1 # 2)%Q) by (vm_compute; reflexivity).
  assert (Ehi1 : (toQ hi1 == 5 # 2)%Q) by (vm_compute; reflexivity).
  destruct (rounds_to_bounds _ _ lo1 hi1 (div_posFinite h num_100 Hh H100))
    as (P1 & L1 & U1); try reflexivity.
  { rewrite Elo1, toQ_num_100. apply Qle_shift_div_l; [reflexivity | lra]. }
  { rewrite Ehi1, toQ_num_100. apply Qle_shift_div_r; [reflexivity | lra]. }
  rewrite Elo1 in L1. rewrite Ehi1 in U1.
  set (m := div h num_100) in *.
  (* its square lies between 0.25 and 6.25 *)
  pose (lo2 := S754_finite false 4503599627370496 (-54)).
  pose (hi2 := S754_finite false 7036874417766400 (-50)).
  assert (Elo2 : (toQ lo2 == 1 # 4)%Q) by (vm_compute; reflexivity).
  assert (Ehi2 : (toQ hi2 == 25 # 4)%Q) by (vm_compute; reflexivity).
  destruct (rounds_to_bounds _ _ lo2 hi2 (mul_posFinite m m P1 P1))
    as (P2 & L2 & U2); try reflexivity.
  { rewrite Elo2. nra. }
  { rewrite Ehi2. nra. }
  rewrite Elo2 in L2. rewrite Ehi2 in U2.
  set (sq := mul m m) in *.
  (* the quotient lies between 3 and 2000 *)
  pose (lo3 := S754_finite false 6755399441055744 (-51)).
  pose (hi3 := S754_finite false 8796093022208000 (-42)).
  assert (Elo3 : (toQ lo3 == 3)%Q) by (vm_compute; reflexivity).
  assert (Ehi3 : (toQ hi3 == 2000)%Q) by (vm_compute; reflexivity).
  destruct (rounds_to_bounds _ _ lo3 hi3 (div_posFinite w sq Hw P2))
    as (P3 & L3 & U3); try reflexivity.
  { rewrite Elo3. apply Qle_shift_div_l; lra. }
  { rewrite Ehi3. apply Qle_shift_div_r; lra. }
  rewrite Elo3 in L3. rewrite Ehi3 in U3. auto.
Qed.

(** ** Accuracy of the computed quotient *)

(** Every [m * 2^e] with a mantissa of at most 53 bits, in the normal
    range, is the value of a Number. *)
Lemma datum_exists m e :
  0 < m -> m < 2 ^ 53 -> -1022 <= e -> e <= 971 ->
  exists x, posFinite x /\ (toQ x == F2Q m e)%Q.
Proof.
  intros Hm Um Le Ue.
  destruct (Zdigits2_bounds m Hm) as [Ld Ud].
  pose proof (Zdigits2_pos m Hm) as Pd.
  assert (D53 : Zdigits2 m <= 53).
  { destruct (Z.le_gt_cases (Zdigits2 m) 53) as [H | H]; [exact H |].
    assert (2 ^ 53 <= 2 ^ (Zdigits2 m - 1))
      by (apply Z.pow_le_mono_r; lia). lia. }
  set (d := Zdigits2 m) in *. set (s := 53 - d).
  assert (Ps : 0 < 2 ^ s) by (apply Z.pow_pos_nonneg; lia).
  assert (E52 : 2 ^ (d - 1) * 2 ^ s = 2 ^ 52).
  { rewrite <- Z.pow_add_r by lia. f_equal. lia. }
  assert (E53 : 2 ^ d * 2 ^ s = 2 ^ 53).
  { rewrite <- Z.pow_add_r by lia. f_equal. lia. }
  assert (Lm : 2 ^ 52 <= m * 2 ^ s) by nia.
  assert (Um' : m * 2 ^ s < 2 ^ 53) by nia.
  assert (Pm : 0 < m * 2 ^ s) by nia.
  exists (S754_finite false (Z.to_pos (m * 2 ^ s)) (e - s)).
  assert (Id : Z.pos (Z.to_pos (m * 2 ^ s)) = m * 2 ^ s) by (apply Z2Pos.id, Pm).
  split.
  - change (valid (S754_finite false (Z.to_pos (m * 2 ^ s)) (e - s)) = true).
    apply (valid_finite_iff false). rewrite Id. split; [| lia].
    unfold canonical. rewrite fexp_eq.
    rewrite (Zdigits2_unique (m * 2 ^ s) 53); [lia | lia |].
    change (53 - 1) with 52. lia.
  - rewrite toQ_finite, Id. symmetry.
    replace s with (e - (e - s)) at 1 by lia.
    apply F2Q_align. lia.
Qed.

(** A rounded result lies within [2^-40] of the exact value when that
    value is between 1/4 and 4000. *)
Lemma rounds_to_close v x :
  rounds_to v false x -> (1 # 4 <= v)%Q -> (v <= 4000)%Q ->
  posFinite x
  /\ (v - (1 # 1099511627776) <= toQ x)%Q
  /\ (toQ x <= v + (1 # 1099511627776))%Q.
Proof.
  intros R Lv Uv.
  set (c := 1099511627776%Q).
  pose proof (Qfloor_le (v * c)) as Fl.
  pose proof (Qlt_floor (v * c)) as Fu.
  set (m := Qfloor (v * c)) in *.
  rewrite inject_Z_plus in Fu. change (inject_Z 1) with 1%Q in Fu.
  assert (Lm : 2 ^ 38 <= m).
  { rewrite <- (Qfloor_Z (2 ^ 38)). apply Qfloor_resp_le.
    change (inject_Z (2 ^ 38)) with 274877906944%Q. unfold c. lra. }
  assert (Um : m <= 4000 * 2 ^ 40).
  { rewrite Zle_Qle.
    change (inject_Z (4000 * 2 ^ 40)) with 4398046511104000%Q.
    unfold c in Fl. lra. }
  assert (P38 : 2 ^ 38 = 274877906944) by reflexivity.
  assert (P40 : 4000 * 2 ^ 40 = 4398046511104000) by reflexivity.
  assert (P53 : 2 ^ 53 = 9007199254740992) by reflexivity.
  destruct (datum_exists m (-40)) as (lo & Plo & Elo); try lia.
  destruct (datum_exists (m + 1) (-40)) as (hi & Phi & Ehi); try lia.
  assert (Ep : (Qpower 2 (-40) == 1 # 1099511627776)%Q) by reflexivity.
  unfold F2Q in Elo, Ehi. rewrite Ep in Elo, Ehi.
  rewrite inject_Z_plus in Ehi. change (inject_Z 1) with 1%Q in Ehi.
  destruct (rounds_to_bounds v x lo hi R Plo Phi) as (Px & Lx & Ux).
  - rewrite Elo. unfold c in Fl. lra.
  - rewrite Ehi. unfold c in Fu. lra.
  - split; [exact Px |]. rewrite Elo in Lx. rewrite Ehi in Ux.
    unfold c in Fl, Fu. split; lra.
Qed.

(** The computed quotient lies within [10^-6] of the quotient of the
    specification, taken at the parsed height and weight. *)
Lemma quotient_close h w :
  posFinite h -> posFinite w ->
  (50 <= toQ h)%Q -> (toQ h <= 250)%Q -> (20 <= toQ w)%Q -> (toQ w <= 500)%Q ->
  (specQuotient (toQ h) (toQ w) - (1 # 1000000)
   <= toQ (div w (mul (div h num_100) (div h num_100))))%Q
  /\ (toQ (div w (mul (div h num_100) (div h num_100)))
      <= specQuotient (toQ h) (toQ w) + (1 # 1000000))%Q.
Proof.
  intros Hh Hw Lh Uh Lw Uw.
  assert (H100 : posFinite num_100) by reflexivity.
  (* heightInMeters *)
  pose (lo1 := S754_finite false 4503599627370496 (-53)).
  pose (hi1 := S754_finite false 5629499534213120 (-51)).
  assert (Elo1 : (toQ lo1 == 1 # 2)%Q) by (vm_compute; reflexivity).
  assert (Ehi1 : (toQ hi1 == 5 # 2)%Q) by (vm_compute; reflexivity).
  pose proof (div_posFinite h num_100 Hh H100) as R1.
  assert (Et : (toQ h / toQ num_100 * 100 == toQ h)%Q).
  { rewrite toQ_num_100. field. }
  remember (toQ h / toQ num_100)%Q as t eqn:Dt. clear Dt.
  destruct (rounds_to_bounds _ _ lo1 hi1 R1) as (P1 & L1 & U1);
    try reflexivity; [rewrite Elo1; lra | rewrite Ehi1; lra |].
  rewrite Elo1 in L1. rewrite Ehi1 in U1.
  destruct (rounds_to_close _ _ R1) as (_ & C1l & C1u); [lra | lra |].
  clear R1. set (m := div h num_100) in *.
  (* its square *)
  pose (lo2 := S754_finite false 4503599627370496 (-54)).
  pose (hi2 := S754_finite false 7036874417766400 (-50)).
  assert (Elo2 : (toQ lo2 == 1 # 4)%Q) by (vm_compute; reflexivity).
  assert (Ehi2 : (toQ hi2 == 25 # 4)%Q) by (vm_compute; reflexivity).
  pose proof (mul_posFinite m m P1 P1) as R2.
  destruct (rounds_to_bounds _ _ lo2 hi2 R2) as (P2 & L2 & U2);
    try reflexivity; [rewrite Elo2; nra | rewrite Ehi2; nra |].
  rewrite Elo2 in L2. rewrite Ehi2 in U2.
  destruct (rounds_to_close _ _ R2) as (_ & C2l & C2u); [nra | nra |].
  clear R2. set (sq := mul m m) in *.
  (* the quotient *)
  pose proof (div_posFinite w sq Hw P2) as R3.
  assert (Er : (toQ w / toQ sq * toQ sq == toQ w)%Q).
  { field. lra. }
  remember (toQ w / toQ sq)%Q as r eqn:Dr. clear Dr.
  assert (Br : (3 <= r)%Q /\ (r <= 2000)%Q) by (split; nra).
  destruct (rounds_to_close _ _ R3) as (_ & C3l & C3u); [lra | lra |].
  clear R3. set (q := div w sq) in *.
  (* the quotient of the specification *)
  assert (Eu : (toQ h / 100 * 100 == toQ h)%Q) by field.
  assert (Ev : (specQuotient (toQ h) (toQ w)
                * (toQ h / 100 * (toQ h / 100)) == toQ w)%Q).
  { unfold specQuotient. field. lra. }
  remember (specQuotient (toQ h) (toQ w)) as v eqn:Dv. clear Dv.
  remember (toQ h / 100)%Q as u eqn:Du. clear Du.
  assert (Etu : (t == u)%Q) by lra.
  remember (toQ m) as a eqn:Da. remember (toQ sq) as b eqn:Db.
  remember (toQ q) as x eqn:Dx. remember (toQ w) as W eqn:DW.
  remember (toQ h) as H eqn:DH.
  clear Da Db Dx DW DH.
  assert (Bu : (1 # 2 <= u)%Q /\ (u <= 5 # 2)%Q) by (split; lra).
  assert (A1 : (a * a - u * u <= 5 # 1099511627776)%Q
               /\ (u * u - a * a <= 5 # 1099511627776)%Q) by (split; nra).
  assert (A2 : (b - u * u <= 6 # 1099511627776)%Q
               /\ (u * u - b <= 6 # 1099511627776)%Q) by (split; lra).
  assert (Bv : (0 <= v)%Q /\ (v <= 2000)%Q) by (split; nra).
  assert (A3 : ((r - v) * b == v * (u * u - b))%Q).
  { transitivity (r * b - v * b)%Q; [ring |]. rewrite Er, <- Ev. ring. }
  assert (A4 : ((r - v) * b <= 12000 # 1099511627776)%Q
               /\ (- (12000 # 1099511627776) <= (r - v) * b)%Q).
  { rewrite A3. split; nra. }
  assert (A5 : (r - v <= 48000 # 1099511627776)%Q
               /\ (- (48000 # 1099511627776) <= r - v)%Q) by (split; nra).
  split; lra.
Qed.

(** Two non-negative rationals within [10^-6] of each other round, at the
    tenths digit, to the same integer or to neighbours; to the same one
    when ten times the second is farther than [10^-5] from a tie. *)
Lemma roundTenths_close x v :
  (0 <= x)%Q -> (0 <= v)%Q ->
  (v - (1 # 1000000) <= x)%Q -> (x <= v + (1 # 1000000))%Q ->
  roundTenths v - 1 <= roundTenths x <= roundTenths v + 1
  /\ ((inject_Z (roundTenths v) - (1 # 2) + (1 # 100000) <= v * 10)%Q ->
      (v * 10 < inject_Z (roundTenths v) + (1 # 2) - (1 # 100000))%Q ->
      roundTenths x = roundTenths v).
Proof.
  intros Px Pv L U. unfold roundTenths, roundHalfAway.
  destruct (Qlt_le_dec (x * 10) 0) as [C | _]; [lra |].
  destruct (Qlt_le_dec (v * 10) 0) as [C | _]; [lra |].
  pose proof (Qfloor_le (x * 10 + (1 # 2))) as Xl.
  pose proof (Qlt_floor (x * 10 + (1 # 2))) as Xu.
  pose proof (Qfloor_le (v * 10 + (1 # 2))) as Vl.
  pose proof (Qlt_floor (v * 10 + (1 # 2))) as Vu.
  set (nx := Qfloor (x * 10 + (1 # 2))) in *.
  set (nv := Qfloor (v * 10 + (1 # 2))) in *.
  rewrite inject_Z_plus in Xu, Vu. change (inject_Z 1) with 1%Q in Xu, Vu.
  assert (A : nx < nv + 2).
  { rewrite Zlt_Qlt, inject_Z_plus. change (inject_Z 2) with 2%Q. lra. }
  assert (B : nv < nx + 2).
  { rewrite Zlt_Qlt, inject_Z_plus. change (inject_Z 2) with 2%Q. lra. }
  split; [lia |]. intros M1 M2.
  assert (A' : nx < nv + 1).
  { rewrite Zlt_Qlt, inject_Z_plus. change (inject_Z 1) with 1%Q. lra. }
  assert (B' : nv < nx + 1).
  { rewrite Zlt_Qlt, inject_Z_plus. change (inject_Z 1) with 1%Q. lra. }
  lia.
Qed.

(** ** Printing and parsing decimals *)

Local Open Scope string_scope.

Lemma digitOf_cases c d :
  digitOf c = Some d ->
  In d [Decimal.D0; Decimal.D1; Decimal.D2; Decimal.D3; Decimal.D4;
        Decimal.D5; Decimal.D6; Decimal.D7; Decimal.D8; Decimal.D9].
Proof.
  destruct c as [[] [] [] [] [] [] [] []]; cbn; intros H; try discriminate;
    injection H as <-; cbn; tauto.
Qed.

Lemma app_digit d x y :
  In d [Decimal.D0; Decimal.D1; Decimal.D2; Decimal.D3; Decimal.D4;
        Decimal.D5; Decimal.D6; Decimal.D7; Decimal.D8; Decimal.D9] ->
  Decimal.app (d x) y = d (Decimal.app x y)
  /\ Decimal.nb_digits (d x) = S (Decimal.nb_digits x)
  /\ d x <> Decimal.Nil.
Proof.
  intros H. cbn in H.
  repeat (destruct H as [<- | H];
          [split; [apply to_list_inj; rewrite app_spec; cbn [to_list]; rewrite app_spec;
                   reflexivity
                  | split; [reflexivity | discriminate]] |]).
  contradiction.
Qed.

Lemma allDigits_app a b :
  allDigits (a ++ b) = (allDigits a && allDigits b)%bool.
Proof.
  induction a as [| c r IH]; cbn; [reflexivity |].
  destruct (digitOf c); [exact IH | reflexivity].
Qed.

Lemma lexDigits_app a rest :
  allDigits a = true ->
  match rest with
  | String c _ => digitOf c = None
  | EmptyString => True
  end ->
  lexDigits (a ++ rest) = (fst (lexDigits a), rest).
Proof.
  intros Ha Hr. induction a as [| c r IH]; cbn in *.
  - destruct rest as [| c r]; [reflexivity |]. cbn. rewrite Hr. reflexivity.
  - destruct (digitOf c) as [d |]; [| discriminate].
    rewrite (IH Ha). destruct (lexDigits r). reflexivity.
Qed.

Lemma lexDigits_allDigits a :
  allDigits a = true -> lexDigits a = (fst (lexDigits a), "").
Proof.
  intros Ha. pose proof (lexDigits_app a "" Ha I) as H.
  assert (E : a ++ "" = a) by (clear; induction a; cbn; congruence).
  rewrite E in H. exact H.
Qed.

Lemma fst_lexDigits_app a b :
  allDigits a = true ->
  fst (lexDigits (a ++ b))
  = Decimal.app (fst (lexDigits a)) (fst (lexDigits b)).
Proof.
  intros Ha. induction a as [| c r IH]; cbn in *.
  - exact (eq_sym (app_nil_l _)).
  - destruct (digitOf c) as [d |] eqn:E; [| discriminate].
    specialize (IH Ha). destruct (lexDigits (r ++ b)) as [x rest].
    destruct (lexDigits r) as [y rest']. cbn in *. subst x.
    symmetry. apply app_digit, (digitOf_cases c d E).
Qed.

Lemma nb_digits_lexDigits a :
  allDigits a = true -> Decimal.nb_digits (fst (lexDigits a)) = String.length a.
Proof.
  intros Ha. induction a as [| c r IH]; cbn in *; [reflexivity |].
  destruct (digitOf c) as [d |] eqn:E; [| discriminate].
  specialize (IH Ha). destruct (lexDigits r) as [y rest]. cbn in *.
  destruct (app_digit d y Decimal.Nil (digitOf_cases c d E)) as (_ & N & _).
  rewrite N, IH. reflexivity.
Qed.

Lemma string_of_uint_digits d :
  allDigits (NilEmpty.string_of_uint d) = true
  /\ fst (lexDigits (NilEmpty.string_of_uint d)) = d.
Proof.
  induction d as [| d [A L] | d [A L] | d [A L] | d [A L] | d [A L] | d [A L]
                  | d [A L] | d [A L] | d [A L] | d [A L]];
    cbn; try (split; reflexivity);
    (split; [exact A |]);
    destruct (lexDigits (NilEmpty.string_of_uint d)); cbn in *; congruence.
Qed.

Lemma substring_split m j :
  (j <= String.length m)%nat ->
  substring 0 j m ++ substring j (String.length m - j) m = m
  /\ String.length (substring 0 j m) = j
  /\ String.length (substring j (String.length m - j) m) = (String.length m - j)%nat.
Proof.
  revert j. induction m as [| c r IH]; intros j Hj; cbn in Hj.
  - assert (j = 0)%nat by lia. subst j. cbn. auto.
  - destruct j as [| j].
    + cbn [substring String.length Nat.sub append].
      destruct (IH 0%nat ltac:(lia)) as (E & _ & L).
      rewrite Nat.sub_0_r in E, L.
      assert (Z0 : forall s, substring 0 0 s = "") by (intros []; reflexivity).
      rewrite Z0 in E. cbn in E. rewrite E. auto.
    + cbn [substring String.length Nat.sub append].
      destruct (IH j ltac:(lia)) as (E & L1 & L2).
      rewrite E, L1, L2. auto.
Qed.

Lemma parseFloat_digit_head c rest d :
  digitOf c = Some d ->
  parseFloat (String c rest)
  = match lexDecimal (String c rest) with
    | Some l => literalValue false l
    | None => S754_nan
    end.
Proof.
  destruct c as [[] [] [] [] [] [] [] []]; cbn [digitOf]; intros H;
    try discriminate; reflexivity.
Qed.

Lemma lexDecimal_point a b :
  allDigits a = true -> allDigits b = true -> a <> "" ->
  lexDecimal (a ++ "." ++ b)
  = Some (LitDecimal (fst (lexDigits a)) (fst (lexDigits b)) 0).
Proof.
  intros Ha Hb Na. unfold lexDecimal.
  rewrite (lexDigits_app a ("." ++ b) Ha) by reflexivity.
  cbn [append]. rewrite (lexDigits_allDigits b Hb). cbn [lexExponent].
  destruct a as [| c r]; [congruence |]. cbn in Ha |- *.
  destruct (digitOf c) as [d |] eqn:E; [| discriminate].
  destruct (lexDigits r) as [y rest]. cbn.
  destruct (app_digit d y Decimal.Nil (digitOf_cases c d E)) as (_ & _ & N).
  destruct (d y); try reflexivity. congruence.
Qed.

Lemma digitsOf_length n : (10 <= n)%N -> (2 <= String.length (digitsOf n))%nat.
Proof.
  intros H. unfold digitsOf.
  pose proof (DecimalN.Unsigned.of_to n) as E.
  destruct (N.to_uint n) as [| d | d | d | d | d | d | d | d | d | d];
    cbn in E; try lia;
    destruct d; cbn in E; try lia; cbn; lia.
Qed.

(** Parsing the digits of [n] with a point before the last one gives the
    Number value for [n / 10]. *)
Lemma parseFloat_inserted_point n :
  (10 <= n)%N ->
  parseFloat (substring 0 (String.length (digitsOf n) - 1) (digitsOf n) ++ "." ++
              substring (String.length (digitsOf n) - 1) 1 (digitsOf n))
  = ofDecimal false n (-1).
Proof.
  intros H. pose proof (digitsOf_length n H) as K.
  set (m := digitsOf n) in *. set (k := String.length m) in *.
  destruct (substring_split m (k - 1) ltac:(lia)) as (E & La & Lb).
  fold k in E, Lb. replace (k - (k - 1))%nat with 1%nat in E, Lb by lia.
  set (a := substring 0 (k - 1) m) in *. set (b := substring (k - 1) 1 m) in *.
  destruct (string_of_uint_digits (N.to_uint n)) as [Dm Lm].
  fold (digitsOf n) in Dm, Lm. fold m in Dm, Lm.
  assert (Dab : allDigits a = true /\ allDigits b = true).
  { rewrite <- E, allDigits_app in Dm. apply andb_true_iff, Dm. }
  destruct Dab as [Da Db].
  assert (Na : a <> "") by (intros Z; rewrite Z in La; cbn in La; lia).
  destruct a as [| c r] eqn:Ea; [congruence |]. rewrite <- Ea in *.
  assert (Dc : exists d, digitOf c = Some d).
  { rewrite Ea in Da. cbn in Da. destruct (digitOf c) as [d |]; [eauto | discriminate]. }
  destruct Dc as [d Dc].
  replace (a ++ "." ++ b) with (String c (r ++ "." ++ b)) by (rewrite Ea; reflexivity).
  rewrite (parseFloat_digit_head c _ d Dc).
  replace (String c (r ++ "." ++ b)) with (a ++ "." ++ b) by (rewrite Ea; reflexivity).
  rewrite (lexDecimal_point a b Da Db Na). cbn [literalValue].
  rewrite <- (fst_lexDigits_app a b Da), E, Lm.
  rewrite (nb_digits_lexDigits b Db), Lb, DecimalN.Unsigned.of_to.
  reflexivity.
Qed.

(** ** The field validator *)

(** [validateField] as a decision list over the messages of section 4.1. *)
Lemma validateField_eq field value :
  validateField field value
  = match trim value with
    | EmptyString => Some (requiredMessage field)
    | _ =>
        if (isNaN (parseFloat value) || leb (parseFloat value) num_0)%bool
        then Some (invalidMessage field)
        else if ltb (parseFloat value) (lowerBound field)
        then Some (tooLowMessage field)
        else if gtb (parseFloat value) (upperBound field)
        then Some (tooHighMessage field)
        else None
    end.
Proof.
  unfold validateField.
  destruct (trim value) as [| c r]; destruct field; reflexivity.
Qed.

(** A well-formed number at or above a positive finite one is positive:
    not NaN, not [<= 0], and either [+Infinity] or finite. *)
Lemma above_posFinite lo v :
  posFinite lo -> valid v = true ->
  leb lo v = true \/ ltb lo v = true ->
  leb v num_0 = false /\ isNaN v = false
  /\ (v = S754_infinity false \/ posFinite v).
Proof.
  intros Hlo V H.
  destruct (posFinite_inv lo Hlo) as (ml & el & -> & _).
  destruct v as [[] | [] | | [] m e]; cbn in H;
    try (destruct H; discriminate); repeat split; auto.
Qed.

Lemma bounds_posFinite field :
  posFinite (lowerBound field) /\ posFinite (upperBound field)
  /\ (toQ (lowerBound field) <= toQ (upperBound field))%Q.
Proof.
  destruct field; repeat split; try reflexivity; vm_compute; discriminate.
Qed.

Lemma validateField_None_iff field value :
  numericText value ->
  (validateField field value = None <-> inRange field (parseFloat value) = true).
Proof.
  intros [Nb Nn]. rewrite validateField_eq.
  destruct (bounds_posFinite field) as (Plo & Phi & Le).
  pose proof (parseFloat_valid value) as V.
  set (v := parseFloat value) in *.
  unfold inRange. rewrite andb_true_iff.
  destruct (trim value) as [| c r]; [congruence |]. rewrite Nn. cbn [orb].
  split.
  - destruct (leb v num_0) eqn:L0; [discriminate |].
    destruct (ltb v (lowerBound field)) eqn:L1; [discriminate |].
    destruct (gtb v (upperBound field)) eqn:L2; [discriminate |]. intros _.
    destruct (in_range_posFinite v _ _ V Plo Phi Nn L1 L2) as (P & A & B).
    split; apply posFinite_leb; assumption.
  - intros [A B].
    destruct (above_posFinite _ v Plo V (or_introl A)) as (L0 & _ & [I | P]).
    + subst v. rewrite I in B.
      destruct (posFinite_inv _ Phi) as (mh & eh & E & _). rewrite E in B.
      discriminate.
    + rewrite L0.
      apply (posFinite_leb _ _ Plo P) in A. apply (posFinite_leb _ _ P Phi) in B.
      destruct (ltb v (lowerBound field)) eqn:L1.
      { apply (posFinite_ltb _ _ P Plo) in L1. lra. }
      destruct (gtb v (upperBound field)) eqn:L2; [| reflexivity].
      apply (posFinite_ltb _ _ Phi P) in L2. lra.
Qed.

Lemma validateField_tooLow field value :
  numericText value ->
  gtb (parseFloat value) num_0 = true ->
  ltb (parseFloat value) (lowerBound field) = true ->
  validateField field value = Some (tooLowMessage field).
Proof.
  intros [Nb Nn] G L. rewrite validateField_eq.
  destruct (trim value) as [| c r]; [congruence |]. rewrite Nn, L. cbn [orb].
  replace (leb (parseFloat value) num_0) with false; [reflexivity |].
  destruct (parseFloat value) as [[] | [] | | [] m e]; try discriminate; reflexivity.
Qed.

Lemma validateField_tooHigh field value :
  numericText value ->
  gtb (parseFloat value) (upperBound field) = true ->
  validateField field value = Some (tooHighMessage field).
Proof.
  intros [Nb Nn] G. rewrite validateField_eq.
  destruct (bounds_posFinite field) as (Plo & Phi & Le).
  pose proof (parseFloat_valid value) as V.
  set (v := parseFloat value) in *.
  destruct (trim value) as [| c r]; [congruence |]. rewrite Nn, G. cbn [orb].
  destruct (above_posFinite _ v Phi V (or_intror G)) as (L0 & _ & [I | P]).
  - rewrite L0, I.
    destruct (posFinite_inv _ Plo) as (ml & el & E & _). rewrite E. reflexivity.
  - rewrite L0. apply (posFinite_ltb _ _ Phi P) in G.
    destruct (ltb v (lowerBound field)) eqn:L1; [| reflexivity].
    apply (posFinite_ltb _ _ P Plo) in L1. lra.
Qed.

(** C4 (as stated, refuted): the text ["Infinity"] does not parse to a
    finite number, yet [validateField] answers with the bound message
    "Height seems too high (max 250cm)", not with the "required" or the
    "valid" one. *)
Lemma C4_counterexample :
  isFinite (parseFloat "Infinity") = false
  /\ validateField Height "Infinity" = Some "Height seems too high (max 250cm)"
  /\ validateField Height "Infinity" <> Some (requiredMessage Height)
  /\ validateField Height "Infinity" <> Some (invalidMessage Height).
Proof. repeat split; try reflexivity; discriminate. Qed.

(** C4 (amended): for every field and every text that is empty or
    whitespace-only, or that parses to NaN, or whose parsed value is
    [<= 0], [validateField] returns "<Field> is required" (exactly when the
    text is blank) or "Please enter a valid <field>", and never a too-low
    or too-high bound message; a text that is not blank and parses to
    [+Infinity] gets the too-high message of its field. *)
Theorem C4_required_or_invalid_never_bound field value :
  (trim value = "" \/ isNaN (parseFloat value) = true
     \/ leb (parseFloat value) num_0 = true ->
   (validateField field value = Some (requiredMessage field)
    \/ validateField field value = Some (invalidMessage field))
   /\ (validateField field value = Some (requiredMessage field) <-> trim value = "")
   /\ validateField field value <> Some (tooLowMessage field)
   /\ validateField field value <> Some (tooHighMessage field))
  /\ (trim value <> "" -> parseFloat value = S754_infinity false ->
      validateField field value = Some (tooHighMessage field)).
Proof.
  rewrite validateField_eq. split.
  - intros H. destruct (trim value) as [| c r] eqn:T.
    + destruct field; repeat split; auto; discriminate.
    + assert (E : (isNaN (parseFloat value) || leb (parseFloat value) num_0)%bool
                  = true).
      { destruct H as [H | [H | H]]; [discriminate | |]; rewrite H;
          auto using orb_true_r. }
      rewrite E. destruct field; repeat split; auto; try discriminate;
        intros X; discriminate.
  - intros N ->. destruct (trim value) as [| c r]; [congruence |].
    destruct field; reflexivity.
Qed.

Lemma C4_witness :
  validateField Height "-5" = Some (invalidMessage Height)
  /\ validateField Weight "   " = Some (requiredMessage Weight)
  /\ validateField Weight "abc" <> Some (tooLowMessage Weight)
  /\ validateField Weight "1e999" = Some (tooHighMessage Weight).
Proof.
  split; [| split; [| split]].
  - destruct (proj1 (C4_required_or_invalid_never_bound Height "-5"))
      as ([R | I] & _).
    + right; right; reflexivity.
    + discriminate R.
    + exact I.
  - apply (proj1 (C4_required_or_invalid_never_bound Weight "   ")).
    + left; reflexivity.
    + reflexivity.
  - apply (proj1 (C4_required_or_invalid_never_bound Weight "abc")).
    right; left; reflexivity.
  - apply (proj2 (C4_required_or_invalid_never_bound Weight "1e999")).
    + discriminate.
    + reflexivity.
Defined.

(** C5 (as stated, refuted): the text ["-5"] is numeric and its value is
    below 50, yet [validateField] does not return the low-bound message
    for the height: it returns "Please enter a valid height". *)
Lemma C5_counterexample :
  numericText "-5"
  /\ ltb (parseFloat "-5") num_50 = true
  /\ validateField Height "-5" = Some "Please enter a valid height"
  /\ validateField Height "-5" <> Some (tooLowMessage Height).
Proof.
  repeat split; try reflexivity; discriminate.
Qed.

(** C5 (amended): for every numeric text, [validateField] returns no
    error iff the parsed value lies in the field's inclusive range
    ([50, 250] for the height, [20, 500] for the weight); a parsed value
    above 0 and below the range gets the field's low-bound message, a
    parsed value above the range gets its high-bound message, and a parsed
    value [<= 0] gets "Please enter a valid <field>". *)
Theorem C5_range_and_bounds field value :
  numericText value ->
  (validateField field value = None <-> inRange field (parseFloat value) = true)
  /\ (gtb (parseFloat value) num_0 = true ->
      ltb (parseFloat value) (lowerBound field) = true ->
      validateField field value = Some (tooLowMessage field))
  /\ (gtb (parseFloat value) (upperBound field) = true ->
      validateField field value = Some (tooHighMessage field))
  /\ (leb (parseFloat value) num_0 = true ->
      validateField field value = Some (invalidMessage field)).
Proof.
  intros N. split; [| split; [| split]].
  - apply validateField_None_iff, N.
  - apply validateField_tooLow, N.
  - apply validateField_tooHigh, N.
  - intros L. rewrite validateField_eq. destruct N as [Nb Nn].
    destruct (trim value) as [| c r]; [congruence |].
    rewrite L, orb_true_r. destruct field; reflexivity.
Qed.

Lemma C5_witness :
  (validateField Height "170" = None <-> inRange Height (parseFloat "170") = true)
  /\ validateField Weight "19.5" = Some "Weight seems too low (min 20kg)"
  /\ validateField Height "250.5" = Some "Height seems too high (max 250cm)"
  /\ validateField Height "0" = Some "Please enter a valid height".
Proof.
  assert (N : forall s, trim s <> "" -> isNaN (parseFloat s) = false -> numericText s)
    by (intros s A B; split; assumption).
  split; [| split; [| split]].
  - apply (C5_range_and_bounds Height "170"). apply N; [discriminate | reflexivity].
  - apply (C5_range_and_bounds Weight "19.5");
      [apply N; [discriminate | reflexivity] | reflexivity | reflexivity].
  - apply (C5_range_and_bounds Height "250.5");
      [apply N; [discriminate | reflexivity] | reflexivity].
  - apply (C5_range_and_bounds Height "0");
      [apply N; [discriminate | reflexivity] | reflexivity].
Defined.

(** A validated text parses to a finite positive number inside the range
    of its field. *)
Lemma validateField_None_range field value :
  validateField field value = None ->
  posFinite (parseFloat value)
  /\ (toQ (lowerBound field) <= toQ (parseFloat value))%Q
  /\ (toQ (parseFloat value) <= toQ (upperBound field))%Q.
Proof.
  rewrite validateField_eq.
  destruct (bounds_posFinite field) as (Plo & Phi & _).
  pose proof (parseFloat_valid value) as V.
  destruct (trim value) as [| c r]; [discriminate |].
  destruct (isNaN (parseFloat value)) eqn:Nn; [discriminate |]. cbn [orb].
  destruct (leb (parseFloat value) num_0); [discriminate |].
  destruct (ltb (parseFloat value) (lowerBound field)) eqn:L1; [discriminate |].
  destruct (gtb (parseFloat value) (upperBound field)) eqn:L2; [discriminate |].
  intros _. apply in_range_posFinite; assumption.
Qed.

Lemma truthy_validateField field value :
  truthy (validateField field value)
  = match validateField field value with
    | Some _ => true
    | None => false
    end.
Proof.
  rewrite validateField_eq.
  destruct (trim value); [destruct field; reflexivity |].
  repeat match goal with
         | |- context [if ?b then _ else _] => destruct b
         end; destruct field; reflexivity.
Qed.

(** The quotient computed from two validated texts is a finite positive
    number between 3 and 2000. *)
Lemma validated_quotient heightText weightText :
  validateField Height heightText = None ->
  validateField Weight weightText = None ->
  posFinite (bmiValueOf heightText weightText)
  /\ (3 <= toQ (bmiValueOf heightText weightText))%Q
  /\ (toQ (bmiValueOf heightText weightText) <= 2000)%Q.
Proof.
  intros Hh Hw.
  destruct (validateField_None_range Height heightText Hh) as (Ph & Lh & Uh).
  destruct (validateField_None_range Weight weightText Hw) as (Pw & Lw & Uw).
  cbn [lowerBound upperBound] in *.
  assert (E50 : (toQ num_50 == 50)%Q) by (vm_compute; reflexivity).
  assert (E250 : (toQ num_250 == 250)%Q) by (vm_compute; reflexivity).
  assert (E20 : (toQ num_20 == 20)%Q) by (vm_compute; reflexivity).
  assert (E500 : (toQ num_500 == 500)%Q) by (vm_compute; reflexivity).
  rewrite E50 in Lh. rewrite E250 in Uh. rewrite E20 in Lw. rewrite E500 in Uw.
  unfold bmiValueOf. apply quotient_bounds; assumption.
Qed.

Lemma posFinite_isFinite x : posFinite x -> isFinite x = true /\ isNaN x = false.
Proof. destruct x as [| | | [] m e]; cbn; try contradiction; auto. Qed.

(** The bands on a finite positive score, read on its value. *)
Lemma bands_toQ score :
  posFinite score ->
  (isUnderweight score = true <-> (toQ score < 185 # 10)%Q)
  /\ (isNormal score = true <-> (185 # 10 <= toQ score)%Q /\ (toQ score < 25)%Q)
  /\ (isOverweight score = true <-> (25 <= toQ score)%Q /\ (toQ score < 30)%Q)
  /\ (isObese score = true <-> (30 <= toQ score)%Q).
Proof.
  intros P.
  assert (E1 : (toQ num_18_5 == 185 # 10)%Q) by (vm_compute; reflexivity).
  assert (E2 : (toQ num_25 == 25)%Q) by (vm_compute; reflexivity).
  assert (E3 : (toQ num_30 == 30)%Q) by (vm_compute; reflexivity).
  assert (P1 : posFinite num_18_5) by reflexivity.
  assert (P2 : posFinite num_25) by reflexivity.
  assert (P3 : posFinite num_30) by reflexivity.
  unfold isUnderweight, isNormal, isOverweight, isObese.
  rewrite !andb_true_iff.
  rewrite (posFinite_ltb _ _ P P1), (posFinite_ltb _ _ P P2),
    (posFinite_ltb _ _ P P3), (posFinite_leb _ _ P1 P), (posFinite_leb _ _ P2 P),
    (posFinite_leb _ _ P3 P), E1, E2, E3.
  repeat split; tauto.
Qed.

(** The category chosen by the component names the band of the score. *)
Lemma categoryOf_bands score :
  posFinite score ->
  (categoryOf score = "Underweight" <-> isUnderweight score = true)
  /\ (categoryOf score = "Normal weight" <-> isNormal score = true)
  /\ (categoryOf score = "Overweight" <-> isOverweight score = true)
  /\ (categoryOf score = "Obese" <-> isObese score = true).
Proof.
  intros P. destruct (bands_toQ score P) as (B1 & B2 & B3 & B4).
  rewrite B1, B2, B3, B4.
  assert (E1 : (toQ num_18_5 == 185 # 10)%Q) by (vm_compute; reflexivity).
  assert (E2 : (toQ num_25 == 25)%Q) by (vm_compute; reflexivity).
  assert (E3 : (toQ num_30 == 30)%Q) by (vm_compute; reflexivity).
  unfold categoryOf.
  destruct (ltb score num_18_5) eqn:L1;
    [apply (posFinite_ltb _ _ P) in L1; [| reflexivity]
    | assert (N1 : ~ (toQ score < toQ num_18_5)%Q)
        by (intros C; apply (posFinite_ltb _ _ P) in C; [congruence | reflexivity])].
  { rewrite E1 in L1. repeat split; intros; try discriminate; try lra; reflexivity. }
  destruct (ltb score num_25) eqn:L2;
    [apply (posFinite_ltb _ _ P) in L2; [| reflexivity]
    | assert (N2 : ~ (toQ score < toQ num_25)%Q)
        by (intros C; apply (posFinite_ltb _ _ P) in C; [congruence | reflexivity])].
  { rewrite E1 in N1. rewrite E2 in L2.
    repeat split; intros; try discriminate; try lra; reflexivity. }
  destruct (ltb score num_30) eqn:L3;
    [apply (posFinite_ltb _ _ P) in L3; [| reflexivity]
    | assert (N3 : ~ (toQ score < toQ num_30)%Q)
        by (intros C; apply (posFinite_ltb _ _ P) in C; [congruence | reflexivity])].
  { rewrite E1 in N1. rewrite E2 in N2. rewrite E3 in L3.
    repeat split; intros; try discriminate; try lra; reflexivity. }
  rewrite E1 in N1. rewrite E2 in N2. rewrite E3 in N3.
  repeat split; intros; try discriminate; try lra; reflexivity.
Qed.

(** ** The submit handler and the state machine *)

Section Properties.

Variable NumberToString : number -> string.

Local Abbreviation calculate := (calculateBMI NumberToString).
Local Abbreviation next := (step NumberToString).
Local Abbreviation runFrom := (run NumberToString).

(** [toFixed(1)] followed by [parseFloat], on a score between 3 and
    2000: the Number value for the score rounded at the tenths digit. *)
Lemma toFixed_parse score :
  posFinite score -> (3 <= toQ score)%Q -> (toQ score <= 2000)%Q ->
  parseFloat (toFixed NumberToString score 1)
  = ofDecimal false (Z.to_N (roundTenths (toQ score))) (-1).
Proof.
  intros P L U. destruct (posFinite_isFinite score P) as [Fi _].
  unfold toFixed. rewrite Fi. cbn [negb].
  destruct (Qlt_le_dec (toQ score) 0) as [C | _]; [lra |].
  assert (A : (Qabs (toQ score) == toQ score)%Q) by (apply Qabs_pos; lra).
  destruct (Qle_bool (inject_Z (10 ^ 21)) (Qabs (toQ score))) eqn:B.
  { apply Qle_bool_iff in B. rewrite A in B.
    change (inject_Z (10 ^ 21)) with (1000000000000000000000 # 1)%Q in B. lra. }
  assert (En : Qfloor (Qabs (toQ score) * inject_Z (10 ^ Z.of_nat 1) + (1 # 2))
               = roundTenths (toQ score)).
  { unfold roundTenths, roundHalfAway.
    destruct (Qlt_le_dec (toQ score * 10) 0) as [C | _]; [lra |].
    apply Qfloor_comp. rewrite A. reflexivity. }
  rewrite En. set (n := roundTenths (toQ score)) in *.
  assert (Hn : (30 <= n)%Z).
  { rewrite <- (Qfloor_Z 30), <- En. apply Qfloor_resp_le. rewrite A.
    change (inject_Z (10 ^ Z.of_nat 1)) with 10%Q.
    change (inject_Z 30) with 30%Q. lra. }
  destruct (Z.eqb_spec n 0) as [Z0 | _]; [lia |].
  pose proof (digitsOf_length (Z.to_N n) ltac:(lia)) as K.
  destruct (Nat.leb_spec (String.length (digitsOf (Z.to_N n))) 1) as [C | _];
    [lia |].
  cbn [append].
  apply parseFloat_inserted_point. lia.
Qed.

Lemma calculate_valid st :
  validInputs st ->
  calculate st
  = setCategory (categoryOf (bmiValueOf (height st) (weight st)))
      (setBmi (Some (ofDecimal false
                       (Z.to_N (roundTenths (toQ (bmiValueOf (height st) (weight st)))))
                       (-1)))
         (setErrors (fun _ => Errors.empty) (setSubmitted true st))).
Proof.
  intros [Hh Hw].
  destruct (validated_quotient _ _ Hh Hw) as (P & L & U).
  destruct (posFinite_isFinite _ P) as [Fi Nn].
  unfold calculateBMI, evaluate. rewrite Hh, Hw, Fi, Nn. cbn [truthy orb negb].
  rewrite (toFixed_parse _ P L U). reflexivity.
Qed.

Lemma calculate_invalid st :
  ~ validInputs st ->
  calculate st
  = setErrors (fun _ => Errors.mk (validateField Height (height st))
                          (validateField Weight (weight st)) None)
      (setSubmitted true st).
Proof.
  intros N. unfold calculateBMI. rewrite !truthy_validateField.
  destruct (validateField Height (height st)) eqn:Hh; [reflexivity |].
  destruct (validateField Weight (weight st)) eqn:Hw; [reflexivity |].
  exfalso. apply N. split; assumption.
Qed.

Lemma validInputs_dec st : validInputs st \/ ~ validInputs st.
Proof.
  unfold validInputs.
  destruct (validateField Height (height st));
    destruct (validateField Weight (weight st));
    try (left; split; reflexivity); right; intros [A B]; discriminate.
Qed.

Lemma evaluate_thrown_iff heightText weightText :
  evaluate NumberToString heightText weightText = Thrown
  <-> isFinite (bmiValueOf heightText weightText) = false.
Proof.
  unfold evaluate.
  destruct (bmiValueOf heightText weightText) as [s | s | | s m e];
    cbn [isFinite isNaN negb orb]; split; congruence.
Qed.

Lemma evaluate_valid st :
  validInputs st ->
  evaluate NumberToString (height st) (weight st) <> Thrown.
Proof.
  intros [Hh Hw]. rewrite evaluate_thrown_iff.
  destruct (validated_quotient _ _ Hh Hw) as (P & _).
  destruct (posFinite_isFinite _ P) as [Fi _]. congruence.
Qed.

(** C1 (amended): for every pair of texts that pass validation the parsed
    height [h] lies in [50, 250] and the parsed weight [w] in [20, 500],
    and the score stored by the submit handler is the Number value for
    [n / 10], where [n] is ten times the computed quotient rounded to the
    nearest integer, a tie going away from zero, and the computed quotient
    is [w / ((h / 100) * (h / 100))] with each of the three operations
    rounded to binary64 (lines 100-103).  The computed quotient lies within
    [10^-6] of the exact [w / (h / 100)^2], so [n] is the rounding of the
    exact quotient or a neighbour of it, and it is that rounding whenever
    ten times the exact quotient is farther than [10^-5] from a tie. *)
Theorem C1_score_is_rounded_quotient st :
  validInputs st ->
  let h := parseFloat (height st) in
  let w := parseFloat (weight st) in
  let q := div w (mul (div h num_100) (div h num_100)) in
  let exact := specQuotient (toQ h) (toQ w) in
  (50 <= toQ h <= 250)%Q
  /\ (20 <= toQ w <= 500)%Q
  /\ bmi (calculate st)
     = Some (ofDecimal false (Z.to_N (roundTenths (toQ q))) (-1))
  /\ (exact - (1 # 1000000) <= toQ q <= exact + (1 # 1000000))%Q
  /\ (roundTenths exact - 1 <= roundTenths (toQ q) <= roundTenths exact + 1)%Z
  /\ ((inject_Z (roundTenths exact) - (1 # 2) + (1 # 100000) <= exact * 10)%Q ->
      (exact * 10 < inject_Z (roundTenths exact) + (1 # 2) - (1 # 100000))%Q ->
      bmi (calculate st)
      = Some (ofDecimal false (Z.to_N (roundTenths exact)) (-1))).
Proof.
  intros V h w q exact. pose proof V as [Hh Hw].
  destruct (validateField_None_range Height _ Hh) as (Ph & Lh & Uh).
  destruct (validateField_None_range Weight _ Hw) as (Pw & Lw & Uw).
  destruct (validated_quotient _ _ Hh Hw) as (Pq & Lq & Uq).
  cbn [lowerBound upperBound] in *.
  assert (E50 : (toQ num_50 == 50)%Q) by (vm_compute; reflexivity).
  assert (E250 : (toQ num_250 == 250)%Q) by (vm_compute; reflexivity).
  assert (E20 : (toQ num_20 == 20)%Q) by (vm_compute; reflexivity).
  assert (E500 : (toQ num_500 == 500)%Q) by (vm_compute; reflexivity).
  rewrite E50 in Lh. rewrite E250 in Uh. rewrite E20 in Lw. rewrite E500 in Uw.
  change (bmiValueOf (height st) (weight st)) with q in Pq, Lq, Uq.
  fold h in Ph, Lh, Uh. fold w in Pw, Lw, Uw.
  destruct (quotient_close h w Ph Pw Lh Uh Lw Uw) as [Cl Cu].
  fold q exact in Cl, Cu.
  assert (B : bmi (calculate st)
              = Some (ofDecimal false (Z.to_N (roundTenths (toQ q))) (-1))).
  { rewrite (calculate_valid st V). reflexivity. }
  destruct (roundTenths_close (toQ q) exact) as [N E]; try lra.
  split; [split; assumption |]. split; [split; assumption |].
  split; [exact B |]. split; [split; assumption |]. split; [exact N |].
  intros M1 M2. rewrite B, (E M1 M2). reflexivity.
Qed.

(** The tenths digit is taken from the computed quotient, a binary64
    number: for the texts "51" and "20.300805" the three operations give a
    number just below 78.05, and the stored score is 78.0. *)
Example score_of_51_and_20_300805 :
  (toQ (bmiValueOf "51" "20.300805") < 7805 # 100)%Q
  /\ bmi (calculate (setWeight "20.300805" (setHeight "51" initialState)))
     = Some (ofDecimal false 780 (-1)).
Proof. split; vm_compute; reflexivity. Qed.

(** C2: for every pair of validated texts the category is the band of
    the unrounded quotient: Underweight iff [score < 18.5], Normal (the
    component's label is "Normal weight") iff [18.5 <= score < 25],
    Overweight iff [25 <= score < 30], Obese iff [score >= 30].  With the
    texts "170" and "71.825" the quotient lies between 24.85 and 24.86,
    the category is the Normal band and the stored score is 24.9; with
    "100" and "24.96" the stored score is 25 while the category is still
    the Normal band, so the rounded value is not what is classified. *)
Theorem C2_category_of_unrounded_score st :
  (validInputs st ->
   (category (calculate st) = "Underweight"
      <-> isUnderweight (bmiValueOf (height st) (weight st)) = true)
   /\ (category (calculate st) = "Normal weight"
      <-> isNormal (bmiValueOf (height st) (weight st)) = true)
   /\ (category (calculate st) = "Overweight"
      <-> isOverweight (bmiValueOf (height st) (weight st)) = true)
   /\ (category (calculate st) = "Obese"
      <-> isObese (bmiValueOf (height st) (weight st)) = true))
  /\ (category (calculate (setWeight "71.825" (setHeight "170" initialState)))
        = "Normal weight"
      /\ bmi (calculate (setWeight "71.825" (setHeight "170" initialState)))
        = Some (ofDecimal false 249 (-1))
      /\ (2485 # 100 < toQ (bmiValueOf "170" "71.825"))%Q
      /\ (toQ (bmiValueOf "170" "71.825") < 2486 # 100)%Q)
  /\ (category (calculate (setWeight "24.96" (setHeight "100" initialState)))
        = "Normal weight"
      /\ bmi (calculate (setWeight "24.96" (setHeight "100" initialState)))
        = Some num_25
      /\ categoryOf num_25 = "Overweight").
Proof.
  split; [| split].
  - intros V. rewrite (calculate_valid st V). cbn [category setCategory].
    destruct V as [Hh Hw].
    destruct (validated_quotient _ _ Hh Hw) as (P & _).
    apply categoryOf_bands, P.
  - repeat split; vm_compute; reflexivity.
  - repeat split; vm_compute; reflexivity.
Qed.

(** *** Runs of the state machine *)

Lemma run_app st evs evs' :
  runFrom st (evs ++ evs')%list = runFrom (runFrom st evs) evs'.
Proof. apply fold_left_app. Qed.

Lemma run_invariant (P : State -> Prop) :
  (forall st ev, P st -> P (next st ev)) ->
  forall evs st, P st -> P (runFrom st evs).
Proof.
  intros Hstep evs. induction evs as [| ev evs IH]; intros st Hst; cbn.
  - exact Hst.
  - apply IH, Hstep, Hst.
Qed.

Lemma handleInputChange_result field value st :
  bmi (handleInputChange field value st) = bmi st
  /\ category (handleInputChange field value st) = category st
  /\ submitted (handleInputChange field value st) = submitted st.
Proof.
  unfold handleInputChange.
  destruct field, (submitted st) eqn:E; repeat split; try reflexivity; exact E.
Qed.

Lemma categoryOf_component score : In (categoryOf score) componentCategories.
Proof.
  unfold categoryOf, componentCategories.
  destruct (ltb score num_18_5); [cbn; tauto |].
  destruct (ltb score num_25); [cbn; tauto |].
  destruct (ltb score num_30); cbn; tauto.
Qed.

Lemma exactly_one_band score :
  posFinite score ->
  List.length (filter (fun band => band score)
                 [isUnderweight; isNormal; isOverweight; isObese]) = 1%nat.
Proof.
  intros P. destruct (bands_toQ score P) as (B1 & B2 & B3 & B4).
  assert (T : forall b (A : Prop), (b = true <-> A) -> A -> b = true)
    by (intros b A H a; apply H, a).
  assert (V : forall b (A : Prop), (b = true <-> A) -> ~ A -> b = false)
    by (intros [] A H n; [exfalso; apply n, H; reflexivity | reflexivity]).
  cbn [filter].
  destruct (Qlt_le_dec (toQ score) (185 # 10)) as [C1 | C1];
    [| destruct (Qlt_le_dec (toQ score) 25) as [C2 | C2];
       [| destruct (Qlt_le_dec (toQ score) 30) as [C3 | C3]]].
  - rewrite (T _ _ B1), (V _ _ B2), (V _ _ B3), (V _ _ B4);
      try reflexivity;
      first [lra | split; lra | intros [? ?]; lra | intros ?; lra].
  - rewrite (V _ _ B1), (T _ _ B2), (V _ _ B3), (V _ _ B4);
      try reflexivity;
      first [lra | split; lra | intros [? ?]; lra | intros ?; lra].
  - rewrite (V _ _ B1), (V _ _ B2), (T _ _ B3), (V _ _ B4);
      try reflexivity;
      first [lra | split; lra | intros [? ?]; lra | intros ?; lra].
  - rewrite (V _ _ B1), (V _ _ B2), (V _ _ B3), (T _ _ B4);
      try reflexivity;
      first [lra | split; lra | intros [? ?]; lra | intros ?; lra].
Qed.

(** C3 (amended): whenever a result exists, in every state the form can
    reach, its category is one of the component's four names
    "Underweight", "Normal weight", "Overweight" and "Obese", and it is the
    name given to the finite positive quotient of two texts that validated;
    the name given to a finite positive score is "Underweight" iff
    [score < 18.5], "Normal weight" iff [18.5 <= score < 25], "Overweight"
    iff [25 <= score < 30] and "Obese" iff [30 <= score], never "Normal";
    and every finite positive score lies in exactly one of the four
    bands. *)
Theorem C3_component_categories_and_bands evs score :
  (bmi (runFrom initialState evs) <> None ->
   In (category (runFrom initialState evs)) componentCategories
   /\ exists heightText weightText,
        validateField Height heightText = None
        /\ validateField Weight weightText = None
        /\ posFinite (bmiValueOf heightText weightText)
        /\ category (runFrom initialState evs)
           = categoryOf (bmiValueOf heightText weightText))
  /\ (posFinite score ->
      (categoryOf score = "Underweight" <-> (toQ score < 185 # 10)%Q)
      /\ (categoryOf score = "Normal weight"
          <-> (185 # 10 <= toQ score < 25)%Q)
      /\ (categoryOf score = "Overweight" <-> (25 <= toQ score < 30)%Q)
      /\ (categoryOf score = "Obese" <-> (30 <= toQ score)%Q)
      /\ categoryOf score <> "Normal")
  /\ (posFinite score ->
      List.length (filter (fun band => band score)
                     [isUnderweight; isNormal; isOverweight; isObese]) = 1%nat).
Proof.
  split; [| split; [| apply exactly_one_band]].
  - apply (run_invariant
             (fun st =>
                bmi st <> None ->
                In (category st) componentCategories
                /\ exists heightText weightText,
                     validateField Height heightText = None
                     /\ validateField Weight weightText = None
                     /\ posFinite (bmiValueOf heightText weightText)
                     /\ category st
                        = categoryOf (bmiValueOf heightText weightText))).
    + intros st [field value |] IH; cbn [step].
      * destruct (handleInputChange_result field value st) as (-> & -> & _).
        exact IH.
      * destruct (validInputs_dec st) as [V | V].
        -- rewrite (calculate_valid st V). intros _.
           split; [apply categoryOf_component |].
           exists (height st), (weight st). destruct V as [Hh Hw].
           destruct (validated_quotient _ _ Hh Hw) as (P & _).
           repeat split; assumption.
        -- rewrite (calculate_invalid st V). exact IH.
    + intros H. exfalso. apply H. reflexivity.
  - intros P. destruct (categoryOf_bands score P) as (C1 & C2 & C3 & C4).
    destruct (bands_toQ score P) as (B1 & B2 & B3 & B4).
    rewrite C1, C2, C3, C4, B1, B2, B3, B4.
    split; [reflexivity |]. split; [reflexivity |].
    split; [reflexivity |]. split; [reflexivity |].
    unfold categoryOf.
    destruct (ltb score num_18_5); [discriminate |].
    destruct (ltb score num_25); [discriminate |].
    destruct (ltb score num_30); discriminate.
Qed.

(** A submission creates a result exactly when both texts validate. *)
Lemma step_creates_result st ev :
  bmi st = None -> bmi (next st ev) <> None -> ev = Submit /\ validInputs st.
Proof.
  intros N H. destruct ev as [field value |]; cbn [step] in H.
  - destruct (handleInputChange_result field value st) as (E & _).
    rewrite E in H. contradiction.
  - split; [reflexivity |]. destruct (validInputs_dec st) as [V | V]; [exact V |].
    rewrite (calculate_invalid st V) in H. contradiction.
Qed.

Lemma step_keeps_result st ev : bmi st <> None -> bmi (next st ev) <> None.
Proof.
  intros H. destruct ev as [field value |]; cbn [step].
  - destruct (handleInputChange_result field value st) as (-> & _). exact H.
  - destruct (validInputs_dec st) as [V | V].
    + rewrite (calculate_valid st V). discriminate.
    + rewrite (calculate_invalid st V). exact H.
Qed.

(** C6: a submission in which at least one field fails validation keeps
    the previous score and category, computes nothing (no general error
    either) and stores the two validation results as field errors, one
    of them at least being set; a result is present after a run of events
    iff the run contains a submission made while both texts validate, the
    computation then succeeding; and no event removes a result. *)
Theorem C6_stale_result_on_error st evs ev :
  (~ validInputs st ->
   bmi (calculate st) = bmi st
   /\ category (calculate st) = category st
   /\ Errors.height (errors (calculate st)) = validateField Height (height st)
   /\ Errors.weight (errors (calculate st)) = validateField Weight (weight st)
   /\ (Errors.height (errors (calculate st)) <> None
       \/ Errors.weight (errors (calculate st)) <> None)
   /\ Errors.general (errors (calculate st)) = None)
  /\ (bmi (runFrom initialState evs) <> None <->
      exists pre post,
        evs = (pre ++ Submit :: post)%list
        /\ validInputs (runFrom initialState pre)
        /\ evaluate NumberToString (height (runFrom initialState pre))
             (weight (runFrom initialState pre)) <> Thrown)
  /\ (bmi st <> None -> bmi (next st ev) <> None).
Proof.
  split; [| split].
  - intros N. rewrite (calculate_invalid st N). cbn.
    repeat split; try reflexivity.
    unfold validInputs in N.
    destruct (validateField Height (height st));
      destruct (validateField Weight (weight st));
      try (left; discriminate); try (right; discriminate).
    exfalso. apply N. split; reflexivity.
  - split.
    + induction evs as [| e evs' IH] using rev_ind.
      * intros H. exfalso. apply H. reflexivity.
      * rewrite run_app. cbn [run fold_left]. intros H.
        destruct (bmi (runFrom initialState evs')) eqn:B.
        -- destruct IH as (pre & post & -> & V); [discriminate |].
           exists pre, (post ++ [e])%list. split; [| exact V].
           rewrite <- app_assoc. reflexivity.
        -- destruct (step_creates_result _ e B H) as [-> V].
           exists evs', []. split; [reflexivity |].
           split; [exact V | apply evaluate_valid, V].
    + intros (pre & post & -> & V & _). rewrite run_app. cbn [run fold_left].
      apply (run_invariant (fun s => bmi s <> None)).
      * intros s e. apply step_keeps_result.
      * cbn [step]. rewrite (calculate_valid _ V). discriminate.
  - apply step_keeps_result.
Qed.

Lemma calculate_submitted st : submitted (calculate st) = true.
Proof.
  destruct (validInputs_dec st) as [V | V].
  - rewrite (calculate_valid st V). reflexivity.
  - rewrite (calculate_invalid st V). reflexivity.
Qed.

Lemma step_submitted st ev :
  submitted (next st ev) = true <-> submitted st = true \/ ev = Submit.
Proof.
  destruct ev as [field value |]; cbn [step].
  - destruct (handleInputChange_result field value st) as (_ & _ & ->).
    split; [auto | intros [H | H]; [exact H | discriminate]].
  - rewrite calculate_submitted. split; auto.
Qed.

(** C7: a submission sets the flag whatever the validation outcome; once
    set it stays set, after one more event and at the end of every longer
    run; after a run of events it is set iff the run contains a submission,
    so it changes once, at the first submission;
    before that an edit only replaces the text of its field; after that
    an edit also stores the validation result of the new text as the
    error of its field. *)
Theorem C7_pristine_then_submitted st ev evs evs' field value :
  submitted (calculate st) = true
  /\ (submitted st = true -> submitted (next st ev) = true)
  /\ (submitted (runFrom initialState evs) = true <-> In Submit evs)
  /\ (submitted (runFrom initialState evs) = true ->
      submitted (runFrom initialState (evs ++ evs')%list) = true)
  /\ (submitted st = false ->
      handleInputChange field value st
      = match field with
        | Height => setHeight value st
        | Weight => setWeight value st
        end
      /\ errors (handleInputChange field value st) = errors st)
  /\ (submitted st = true ->
      handleInputChange field value st
      = setErrors (Errors.set field (validateField field value))
          match field with
          | Height => setHeight value st
          | Weight => setWeight value st
          end
      /\ Errors.get field (errors (handleInputChange field value st))
         = validateField field value).
Proof.
  assert (R : forall l, submitted (runFrom initialState l) = true <-> In Submit l).
  { induction l as [| e l IH] using rev_ind.
    - cbn. split; [discriminate | contradiction].
    - rewrite run_app. cbn [run fold_left]. rewrite step_submitted, IH, in_app_iff.
      cbn [In]. split.
      + intros [H | ->]; auto.
      + intros [H | [H | []]]; auto. }
  split; [apply calculate_submitted |].
  split; [intros H; apply step_submitted; left; exact H |].
  split; [apply R |]. split; [| split].
  - rewrite !R, in_app_iff. auto.
  - intros H. unfold handleInputChange. rewrite H.
    destruct field; split; reflexivity.
  - intros H. unfold handleInputChange. rewrite H.
    destruct field; split; reflexivity.
Qed.

Lemma calculate_general st : Errors.general (errors (calculate st)) = None.
Proof.
  destruct (validInputs_dec st) as [V | V].
  - rewrite (calculate_valid st V). reflexivity.
  - rewrite (calculate_invalid st V). reflexivity.
Qed.

(** C8: the [try] block throws iff the computed quotient is not finite
    (an infinity or NaN); for every pair of texts that both pass
    validation the quotient is finite and not NaN, so the block does not
    throw and the submit handler leaves no general error; the [catch]
    clause itself sets the general error and keeps score and category. *)
Theorem C8_computation_error_unreachable heightText weightText st :
  (evaluate NumberToString heightText weightText = Thrown
   <-> isFinite (bmiValueOf heightText weightText) = false)
  /\ (validateField Height heightText = None ->
      validateField Weight weightText = None ->
      isFinite (bmiValueOf heightText weightText) = true
      /\ isNaN (bmiValueOf heightText weightText) = false
      /\ evaluate NumberToString heightText weightText <> Thrown)
  /\ (validInputs st ->
      Errors.general (errors (calculate st)) = None
      /\ bmi (calculate st) <> None)
  /\ (Errors.general (errors (onCalculationError st)) = Some generalErrorMessage
      /\ bmi (onCalculationError st) = bmi st
      /\ category (onCalculationError st) = category st).
Proof.
  split; [apply evaluate_thrown_iff |]. split; [| split].
  - intros Hh Hw.
    destruct (validated_quotient _ _ Hh Hw) as (P & _).
    destruct (posFinite_isFinite _ P) as [Fi Nn].
    repeat split; try assumption.
    rewrite evaluate_thrown_iff. congruence.
  - intros V. split; [apply calculate_general |].
    rewrite (calculate_valid st V). discriminate.
  - repeat split.
Qed.

(** C10: every submission first replaces the errors by the two fresh
    validation results and no general error, and only then branches on
    them, so that its outcome does not depend on the errors shown before;
    after every submission the general error is absent; and a submission
    that fails validation still keeps the previous score and category. *)
Theorem C10_general_error_cleared st e :
  (exists st2,
     st2 = setErrors (fun _ => Errors.mk (validateField Height (height st))
                                (validateField Weight (weight st)) None)
             (setSubmitted true st)
     /\ (calculate st = st2
         \/ (exists b c, calculate st = setCategory c (setBmi (Some b) st2))
         \/ calculate st = onCalculationError st2))
  /\ calculate (setErrors (fun _ => e) st) = calculate st
  /\ Errors.general (errors (calculate st)) = None
  /\ (~ validInputs st ->
      Errors.general (errors (calculate st)) = None
      /\ bmi (calculate st) = bmi st
      /\ category (calculate st) = category st).
Proof.
  split; [| split; [reflexivity | split; [apply calculate_general |]]].
  - eexists. split; [reflexivity |]. unfold calculateBMI.
    destruct (truthy (validateField Height (height st))
              || truthy (validateField Weight (weight st)))%bool; [auto |].
    destruct (evaluate NumberToString (height st) (weight st)) as [| b c]; eauto.
  - intros N. rewrite (calculate_invalid st N). repeat split.
Qed.

End Properties.

(** ** The scale position *)

Local Open Scope Z_scope.

(** The difference of two finite positive numbers, the first one at least
    as large as the second: [+0], or finite, positive and at most any
    datum above the exact difference. *)
Lemma sub_posFinite_upper c lo hi :
  posFinite c -> posFinite lo -> posFinite hi ->
  (toQ lo <= toQ c)%Q -> (toQ c - toQ lo <= toQ hi)%Q ->
  sub c lo = S754_zero false
  \/ (posFinite (sub c lo) /\ (toQ (sub c lo) <= toQ hi)%Q).
Proof.
  intros Pc Plo Phi L U.
  destruct (posFinite_inv c Pc) as (mc & ec & -> & _).
  destruct (posFinite_inv lo Plo) as (ml & el & -> & _).
  rewrite !toQ_finite in L, U.
  unfold sub, SFsub. cbn [cond_Zopp].
  set (ez := Z.min ec el).
  pose proof (shl_align_spec mc ec ez) as Ac.
  pose proof (shl_align_spec ml el ez) as Al.
  destruct (shl_align mc ec ez) as [mc' ec'].
  destruct (shl_align ml el ez) as [ml' el'].
  destruct Ac as (_ & Ec & Xc & _). destruct Al as (_ & El & Xl & _).
  specialize (Xc ltac:(subst ez; lia)). specialize (Xl ltac:(subst ez; lia)).
  subst ec' el'. cbn [fst].
  assert (Vc : (F2Q (Z.pos mc) ec == F2Q (Z.pos mc') ez)%Q).
  { rewrite Ec. apply F2Q_align. subst ez. lia. }
  assert (Vl : (F2Q (Z.pos ml) el == F2Q (Z.pos ml') ez)%Q).
  { rewrite El. apply F2Q_align. subst ez. lia. }
  assert (Vd : (F2Q (Z.pos mc' - Z.pos ml') ez
                == F2Q (Z.pos mc) ec - F2Q (Z.pos ml) el)%Q).
  { rewrite Vc, Vl. unfold F2Q, Z.sub.
    rewrite inject_Z_plus, inject_Z_opp. ring. }
  assert (D : Z.pos ml' <= Z.pos mc').
  { apply (F2Q_le_inv _ _ ez). rewrite <- Vc, <- Vl. exact L. }
  destruct (Z.pos mc' - Z.pos ml') as [| d | d] eqn:Ed; try lia.
  - left. reflexivity.
  - cbn [binary_normalize].
    apply (rounds_to_upper (F2Q (Z.pos d) ez)).
    + apply binary_round_rounds.
    + exact Phi.
    + rewrite Vd. exact U.
Qed.

Lemma div_upper a d hi :
  a = S754_zero false \/ posFinite a -> posFinite d -> posFinite hi ->
  (toQ a <= toQ hi * toQ d)%Q ->
  div a d = S754_zero false
  \/ (posFinite (div a d) /\ (toQ (div a d) <= toQ hi)%Q).
Proof.
  intros [-> | Pa] Pd Phi U.
  - left. destruct (posFinite_inv d Pd) as (md & ed & -> & _). reflexivity.
  - apply (rounds_to_upper _ _ hi (div_posFinite a d Pa Pd) Phi).
    apply Qle_shift_div_r; [| exact U].
    destruct (posFinite_inv d Pd) as (md & ed & -> & _).
    rewrite toQ_finite. apply F2Q_pos. lia.
Qed.

Lemma mul_upper a d hi :
  a = S754_zero false \/ posFinite a -> posFinite d -> posFinite hi ->
  (toQ a * toQ d <= toQ hi)%Q ->
  mul a d = S754_zero false
  \/ (posFinite (mul a d) /\ (toQ (mul a d) <= toQ hi)%Q).
Proof.
  intros [-> | Pa] Pd Phi U.
  - left. destruct (posFinite_inv d Pd) as (md & ed & -> & _). reflexivity.
  - apply (rounds_to_upper _ _ hi (mul_posFinite a d Pa Pd) Phi). exact U.
Qed.

(** The clamped score is a finite number between 10 and 40. *)
Lemma clamp_range score :
  valid score = true -> isNaN score = false ->
  posFinite (Math_max [num_10; Math_min [score; num_40]])
  /\ (10 <= toQ (Math_max [num_10; Math_min [score; num_40]]))%Q
  /\ (toQ (Math_max [num_10; Math_min [score; num_40]]) <= 40)%Q.
Proof.
  intros V Nn.
  assert (E10 : (toQ num_10 == 10)%Q) by (vm_compute; reflexivity).
  assert (E40 : (toQ num_40 == 40)%Q) by (vm_compute; reflexivity).
  assert (P10 : posFinite num_10) by reflexivity.
  assert (P40 : posFinite num_40) by reflexivity.
  assert (K10 : posFinite num_10 /\ (10 <= toQ num_10)%Q /\ (toQ num_10 <= 40)%Q)
    by (split; [exact P10 | rewrite E10; split; discriminate]).
  assert (K40 : posFinite num_40 /\ (10 <= toQ num_40)%Q /\ (toQ num_40 <= 40)%Q)
    by (split; [exact P40 | rewrite E40; split; discriminate]).
  destruct score as [[] | [] | | [] m e]; try discriminate;
    try exact K10; try exact K40.
  set (b := S754_finite false m e) in *.
  assert (Pb : posFinite b) by exact V.
  assert (EM : Math_min [(b : number); num_40]
               = if ltb num_40 b then num_40 else b) by reflexivity.
  rewrite EM. destruct (ltb num_40 b) eqn:L40; [exact K40 |].
  assert (EX : Math_max [num_10; (b : number)]
               = if ltb num_10 b then b else num_10) by reflexivity.
  rewrite EX. destruct (ltb num_10 b) eqn:L10; [| exact K10].
  split; [exact Pb |]. rewrite <- E10, <- E40. split.
  - apply Qlt_le_weak, (posFinite_ltb _ _ P10 Pb), L10.
  - apply Qnot_lt_le. intros C.
    apply (posFinite_ltb _ _ P40 Pb) in C. congruence.
Qed.

(** The scale position of a score is [+0] or a finite positive number of
    at most 100. *)
Lemma scale_position_range st score :
  bmi st = Some score -> valid score = true -> isNaN score = false ->
  getBmiScalePosition st = S754_zero false
  \/ (posFinite (getBmiScalePosition st)
      /\ (toQ (getBmiScalePosition st) <= toQ num_100)%Q).
Proof.
  intros B V Nn. unfold getBmiScalePosition. rewrite B.
  destruct (clamp_range score V Nn) as (Pc & Lc & Uc).
  set (c := Math_max [num_10; Math_min [score; num_40]]) in *.
  assert (E10 : (toQ num_10 == 10)%Q) by (vm_compute; reflexivity).
  assert (E30 : (toQ num_30 == 30)%Q) by (vm_compute; reflexivity).
  assert (E100 : (toQ num_100 == 100)%Q) by (vm_compute; reflexivity).
  pose (one := S754_finite false 4503599627370496 (-52)).
  assert (E1 : (toQ one == 1)%Q) by (vm_compute; reflexivity).
  assert (S : sub c num_10 = S754_zero false
              \/ (posFinite (sub c num_10) /\ (toQ (sub c num_10) <= toQ num_30)%Q)).
  { apply sub_posFinite_upper; try reflexivity; try assumption.
    - rewrite E10. exact Lc.
    - rewrite E10, E30. lra. }
  assert (Sq : (0 <= toQ (sub c num_10))%Q /\ (toQ (sub c num_10) <= 30)%Q).
  { destruct S as [-> | [P U]]; [split; discriminate |].
    rewrite E30 in U. split; [| exact U].
    destruct (posFinite_inv _ P) as (ms & es & -> & _).
    rewrite toQ_finite. apply Qlt_le_weak, F2Q_pos. lia. }
  assert (D : div (sub c num_10) num_30 = S754_zero false
              \/ (posFinite (div (sub c num_10) num_30)
                  /\ (toQ (div (sub c num_10) num_30) <= toQ one)%Q)).
  { apply div_upper; try reflexivity.
    - destruct S as [Z0 | [P _]]; auto.
    - rewrite E1, E30. lra. }
  assert (Dq : (toQ (div (sub c num_10) num_30) <= 1)%Q).
  { destruct D as [-> | [_ U]]; [discriminate |]. rewrite E1 in U. exact U. }
  apply mul_upper; try reflexivity.
  - destruct D as [Z0 | [P _]]; auto.
  - rewrite E100. lra.
Qed.

Lemma ofDecimal_not_NaN m e : isNaN (ofDecimal false m e) = false.
Proof.
  assert (R : forall p q, isNaN (ofRatio false p q) = false).
  { intros p q. destruct (div_rounds false p 0 false q 0) as (mf & ef & E & P & _).
    unfold ofRatio. fold (div (S754_finite false p 0) (S754_finite false q 0)).
    rewrite E. destruct mf as [| pf | pf]; try lia; [reflexivity |].
    unfold pack. destruct (ef <=? emax - prec); reflexivity. }
  destruct m as [| p]; [reflexivity |]. destruct e; apply R.
Qed.

(** The score held by a state the form can reach is a well-formed number
    and not NaN. *)
Lemma reachable_score NumberToString evs score :
  bmi (run NumberToString initialState evs) = Some score ->
  valid score = true /\ isNaN score = false.
Proof.
  revert score.
  apply (run_invariant NumberToString
           (fun st => forall score, bmi st = Some score ->
                                    valid score = true /\ isNaN score = false)).
  - intros st [field value |] IH score; cbn [step].
    + destruct (handleInputChange_result field value st) as (-> & _). apply IH.
    + destruct (validInputs_dec st) as [V | V].
      * rewrite (calculate_valid NumberToString st V). cbn. intros [= <-].
        split; [apply ofDecimal_valid | apply ofDecimal_not_NaN].
      * rewrite (calculate_invalid NumberToString st V). apply IH.
  - discriminate.
Qed.

(** C9: the scale position of a score is
    [((max(10, min(score, 40)) - 10) / 30) * 100]; the clamped score lies
    in [10, 40] and the position in [0, 100], for every score that is a
    number, hence in every state the form can reach; the positions of 10,
    40, 5 and 25 are 0, 100, 0 and 50. *)
Theorem C9_scale_position NumberToString st score evs :
  (bmi st = Some score -> valid score = true -> isNaN score = false ->
   getBmiScalePosition st
   = mul (div (sub (Math_max [num_10; Math_min [score; num_40]]) num_10) num_30)
       num_100
   /\ leb num_10 (Math_max [num_10; Math_min [score; num_40]]) = true
   /\ leb (Math_max [num_10; Math_min [score; num_40]]) num_40 = true
   /\ leb num_0 (getBmiScalePosition st) = true
   /\ leb (getBmiScalePosition st) num_100 = true)
  /\ (leb num_0 (getBmiScalePosition (run NumberToString initialState evs)) = true
      /\ leb (getBmiScalePosition (run NumberToString initialState evs)) num_100
         = true)
  /\ getBmiScalePosition (setBmi (Some num_10) st) = num_0
  /\ getBmiScalePosition (setBmi (Some num_40) st) = num_100
  /\ getBmiScalePosition (setBmi (Some (ofDecimal false 5 0)) st) = num_0
  /\ getBmiScalePosition (setBmi (Some num_25) st) = num_50.
Proof.
  assert (R : forall s x,
             bmi s = Some x -> valid x = true -> isNaN x = false ->
             leb num_0 (getBmiScalePosition s) = true
             /\ leb (getBmiScalePosition s) num_100 = true).
  { intros s x B V Nn.
    destruct (scale_position_range s x B V Nn) as [-> | [P U]].
    - split; reflexivity.
    - split.
      + destruct (posFinite_inv _ P) as (m & e & -> & _). reflexivity.
      + apply posFinite_leb; [exact P | reflexivity | exact U]. }
  split; [| split; [| repeat split; vm_compute; reflexivity]].
  - intros B V Nn. split; [unfold getBmiScalePosition; rewrite B; reflexivity |].
    destruct (clamp_range score V Nn) as (Pc & Lc & Uc).
    assert (E10 : (toQ num_10 == 10)%Q) by (vm_compute; reflexivity).
    assert (E40 : (toQ num_40 == 40)%Q) by (vm_compute; reflexivity).
    split; [apply posFinite_leb; [reflexivity | exact Pc | rewrite E10; exact Lc] |].
    split; [apply posFinite_leb; [exact Pc | reflexivity | rewrite E40; exact Uc] |].
    apply (R st score B V Nn).
  - destruct (bmi (run NumberToString initialState evs)) as [x |] eqn:B.
    + destruct (reachable_score NumberToString evs x B) as [V Nn].
      apply (R _ x B V Nn).
    + unfold getBmiScalePosition. rewrite B. split; reflexivity.
Qed.

(** ** The claims at concrete inputs *)

Local Open Scope string_scope.

Lemma sampleInputs_valid : validInputs sampleInputs.
Proof. split; vm_compute; reflexivity. Defined.

Lemma sampleInvalidEdit_invalid :
  ~ validInputs (run sampleToString initialState sampleInvalidEdit).
Proof. intros [_ H]. vm_compute in H. discriminate H. Defined.

(** C1 (as stated, refuted): the texts "160" and "48" validate and parse
    to 160 and 48; the quotient of the specification is 18.75, which rounds
    to 18.8, while the computed quotient lies below 18.75 and the stored
    score is the Number for 18.7. *)
Lemma C1_counterexample :
  validInputs (setWeight "48" (setHeight "160" initialState))
  /\ (toQ (parseFloat "160") == 160)%Q /\ (toQ (parseFloat "48") == 48)%Q
  /\ (specQuotient 160 48 == 1875 # 100)%Q
  /\ roundTenths (specQuotient 160 48) = 188
  /\ bmi (calculateBMI sampleToString
            (setWeight "48" (setHeight "160" initialState)))
     = Some (ofDecimal false 187 (-1))
  /\ bmi (calculateBMI sampleToString
            (setWeight "48" (setHeight "160" initialState)))
     <> Some (ofDecimal false (Z.to_N (roundTenths (specQuotient 160 48))) (-1))
  /\ (toQ (ofDecimal false 187 (-1)) < 188 # 10)%Q.
Proof.
  split; [split; vm_compute; reflexivity |].
  split; [vm_compute; reflexivity |]. split; [vm_compute; reflexivity |].
  split; [vm_compute; reflexivity |]. split; [vm_compute; reflexivity |].
  split; [vm_compute; reflexivity |].
  split; [vm_compute; discriminate | vm_compute; reflexivity].
Defined.

Lemma C1_witness :
  validInputs sampleInputs
  /\ (50 <= toQ (parseFloat "170") <= 250)%Q
  /\ (toQ (div (parseFloat "70")
             (mul (div (parseFloat "170") num_100)
                (div (parseFloat "170") num_100)))
      <= specQuotient (toQ (parseFloat "170")) (toQ (parseFloat "70"))
         + (1 # 1000000))%Q
  /\ bmi (calculateBMI sampleToString sampleInputs)
     = Some (ofDecimal false 242 (-1)).
Proof.
  pose proof (C1_score_is_rounded_quotient sampleToString sampleInputs
                sampleInputs_valid) as H.
  cbv zeta in H. destruct H as (H & _ & B & [_ C] & _).
  split; [exact sampleInputs_valid |]. split; [exact H |].
  split; [exact C |]. rewrite B. vm_compute. reflexivity.
Defined.

Lemma C2_witness :
  validInputs sampleInputs
  /\ isNormal (bmiValueOf (height sampleInputs) (weight sampleInputs)) = true
  /\ category (calculateBMI sampleToString sampleInputs) = "Normal weight".
Proof.
  split; [exact sampleInputs_valid |].
  destruct (C2_category_of_unrounded_score sampleToString sampleInputs) as [H _].
  destruct (H sampleInputs_valid) as (_ & N & _).
  assert (B : isNormal (bmiValueOf (height sampleInputs) (weight sampleInputs)) = true)
    by (vm_compute; reflexivity).
  split; [exact B | apply N, B].
Defined.

(** C3 (as stated, refuted): after the texts "170" and "70" are submitted a
    result exists and its category is "Normal weight", which is none of the
    four names Underweight, Normal, Overweight and Obese. *)
Lemma C3_counterexample :
  bmi (run sampleToString initialState sampleSubmission) <> None
  /\ category (run sampleToString initialState sampleSubmission) = "Normal weight"
  /\ ~ In (category (run sampleToString initialState sampleSubmission))
         specCategories.
Proof.
  split; [vm_compute; discriminate |]. split; [vm_compute; reflexivity |].
  vm_compute. intros [H | [H | [H | [H | []]]]]; discriminate H.
Defined.

Lemma C3_witness :
  bmi (run sampleToString initialState sampleSubmission) <> None
  /\ In (category (run sampleToString initialState sampleSubmission))
       componentCategories
  /\ posFinite num_20
  /\ categoryOf num_20 = "Normal weight"
  /\ List.length (filter (fun band => band num_20)
                    [isUnderweight; isNormal; isOverweight; isObese]) = 1%nat.
Proof.
  assert (B : bmi (run sampleToString initialState sampleSubmission) <> None)
    by (vm_compute; discriminate).
  assert (P : posFinite num_20) by reflexivity.
  destruct (C3_component_categories_and_bands sampleToString sampleSubmission num_20)
    as (H1 & H2 & H3).
  destruct (H1 B) as [I _]. destruct (H2 P) as (_ & N & _).
  split; [exact B |]. split; [exact I |]. split; [exact P |].
  split; [| exact (H3 P)].
  apply N. split; vm_compute; [discriminate | reflexivity].
Defined.

Lemma C6_witness :
  bmi (calculateBMI sampleToString
         (run sampleToString initialState sampleInvalidEdit))
  = Some (ofDecimal false 242 (-1))
  /\ category (calculateBMI sampleToString
                 (run sampleToString initialState sampleInvalidEdit))
     = "Normal weight"
  /\ Errors.weight (errors (calculateBMI sampleToString
                              (run sampleToString initialState sampleInvalidEdit)))
     = Some "Please enter a valid weight"
  /\ bmi (step sampleToString (run sampleToString initialState sampleInvalidEdit)
            Submit) <> None.
Proof.
  destruct (C6_stale_result_on_error sampleToString
              (run sampleToString initialState sampleInvalidEdit)
              sampleInvalidEdit Submit) as (H1 & _ & H3).
  destruct (H1 sampleInvalidEdit_invalid) as (B & C & _ & W & _).
  rewrite B, C, W.
  split; [vm_compute; reflexivity |]. split; [vm_compute; reflexivity |].
  split; [vm_compute; reflexivity |].
  apply H3. vm_compute. discriminate.
Defined.

Lemma C7_witness :
  submitted (step sampleToString (calculateBMI sampleToString initialState)
               (InputChange Height "abc")) = true
  /\ errors (handleInputChange Height "abc" initialState) = errors initialState
  /\ Errors.get Height
       (errors (handleInputChange Height "abc"
                  (calculateBMI sampleToString initialState)))
     = Some "Please enter a valid height".
Proof.
  destruct (C7_pristine_then_submitted sampleToString initialState
              (InputChange Height "abc") [] [] Height "abc")
    as (_ & _ & _ & _ & P & _).
  destruct (C7_pristine_then_submitted sampleToString
              (calculateBMI sampleToString initialState)
              (InputChange Height "abc") [] [] Height "abc")
    as (_ & K & _ & _ & _ & S).
  assert (T : submitted (calculateBMI sampleToString initialState) = true)
    by reflexivity.
  split; [exact (K T) |]. split; [exact (proj2 (P eq_refl)) |].
  rewrite (proj2 (S T)). reflexivity.
Defined.

Lemma C8_witness :
  validateField Height "170" = None
  /\ validateField Weight "70" = None
  /\ isFinite (bmiValueOf "170" "70") = true
  /\ evaluate sampleToString "170" "70" <> Thrown
  /\ Errors.general (errors (calculateBMI sampleToString sampleInputs)) = None.
Proof.
  assert (Hh : validateField Height "170" = None) by (vm_compute; reflexivity).
  assert (Hw : validateField Weight "70" = None) by (vm_compute; reflexivity).
  destruct (C8_computation_error_unreachable sampleToString "170" "70" sampleInputs)
    as (_ & H2 & H3 & _).
  destruct (H2 Hh Hw) as (Fi & _ & Nt).
  split; [exact Hh |]. split; [exact Hw |]. split; [exact Fi |].
  split; [exact Nt |]. exact (proj1 (H3 sampleInputs_valid)).
Defined.

Lemma C9_witness :
  leb num_0 (getBmiScalePosition (setBmi (Some num_25) initialState)) = true
  /\ leb (getBmiScalePosition (setBmi (Some num_25) initialState)) num_100 = true.
Proof.
  destruct (C9_scale_position sampleToString (setBmi (Some num_25) initialState)
              num_25 []) as (H & _).
  destruct (H eq_refl eq_refl eq_refl) as (_ & _ & _ & L & U).
  split; assumption.
Defined.

Lemma C10_witness :
  Errors.general
    (errors (calculateBMI sampleToString
               (run sampleToString initialState sampleInvalidEdit))) = None
  /\ bmi (calculateBMI sampleToString
            (run sampleToString initialState sampleInvalidEdit))
     = bmi (run sampleToString initialState sampleInvalidEdit).
Proof.
  destruct (C10_general_error_cleared sampleToString
              (run sampleToString initialState sampleInvalidEdit) Errors.empty)
    as (_ & _ & _ & H).
  destruct (H sampleInvalidEdit_invalid) as (G & B & _).
  split; assumption.
Defined.

(** * Further properties of the component *)

(** ** Edits *)

(** X1: edits of the two fields commute, and of two successive edits of
    one field only the second one counts. *)
Theorem X1_edits_compose st field a b :
  handleInputChange Height a (handleInputChange Weight b st)
  = handleInputChange Weight b (handleInputChange Height a st)
  /\ handleInputChange field a (handleInputChange field b st)
     = handleInputChange field a st.
Proof.
  unfold handleInputChange.
  destruct field, (submitted st) eqn:E; cbn; rewrite ?E; split; reflexivity.
Qed.

Section Extras.

Variable NumberToString : number -> string.

Local Abbreviation calculate := (calculateBMI NumberToString).
Local Abbreviation next := (step NumberToString).
Local Abbreviation runFrom := (run NumberToString).

Lemma run_snoc st evs ev :
  runFrom st (evs ++ [ev])%list = next (runFrom st evs) ev.
Proof. rewrite (run_app NumberToString). reflexivity. Qed.

Lemma handleInputChange_general field value st :
  Errors.general (errors (handleInputChange field value st))
  = Errors.general (errors st).
Proof.
  unfold handleInputChange. destruct field, (submitted st); reflexivity.
Qed.

Lemma calculate_texts st field :
  fieldText field (calculate st) = fieldText field st.
Proof.
  destruct (validInputs_dec st) as [V | V].
  - rewrite (calculate_valid NumberToString st V). destruct field; reflexivity.
  - rewrite (calculate_invalid NumberToString st V). destruct field; reflexivity.
Qed.

(** X2: in every state the form can reach the general error is absent, so
    the alert of line 176 is never shown. *)
Theorem X2_general_alert_never_shown evs :
  Errors.general (errors (runFrom initialState evs)) = None
  /\ generalAlert (runFrom initialState evs) = None.
Proof.
  assert (G : Errors.general (errors (runFrom initialState evs)) = None).
  { apply (run_invariant NumberToString
             (fun st => Errors.general (errors st) = None)); [| reflexivity].
    intros st [field value |] IH; cbn [step].
    - rewrite handleInputChange_general. exact IH.
    - apply calculate_general. }
  split; [exact G |]. unfold generalAlert. rewrite G. reflexivity.
Qed.

Lemma texts_last_edit evs st field :
  fieldText field (runFrom st evs) = lastEdit field evs (fieldText field st).
Proof.
  revert st. induction evs as [| ev l IH]; intros s; [reflexivity |].
  cbn [run fold_left lastEdit]. fold (runFrom (next s ev) l).
  rewrite IH. unfold lastEdit. f_equal.
  destruct ev as [f v |]; cbn [step].
  - unfold handleInputChange.
    destruct f, field, (submitted s); reflexivity.
  - apply calculate_texts.
Qed.

(** X3: the text held for a field is the value of its last edit (empty
    when it was never edited); a submission leaves both texts as they
    are. *)
Theorem X3_texts_are_last_edits evs st field :
  fieldText field (runFrom initialState evs) = lastEdit field evs ""
  /\ fieldText field (calculate st) = fieldText field st.
Proof.
  split; [| apply calculate_texts].
  rewrite texts_last_edit. destruct field; reflexivity.
Qed.

(** The errors of a reachable state: none before the first submission,
    the validation results of the current texts after it. *)
Lemma reachable_errors evs :
  (submitted (runFrom initialState evs) = false ->
   errors (runFrom initialState evs) = Errors.empty
   /\ bmi (runFrom initialState evs) = None
   /\ category (runFrom initialState evs) = "")
  /\ (submitted (runFrom initialState evs) = true ->
      forall field,
        Errors.get field (errors (runFrom initialState evs))
        = validateField field (fieldText field (runFrom initialState evs))).
Proof.
  apply (run_invariant NumberToString
           (fun st =>
              (submitted st = false ->
               errors st = Errors.empty /\ bmi st = None /\ category st = "")
              /\ (submitted st = true ->
                  forall field,
                    Errors.get field (errors st)
                    = validateField field (fieldText field st)))).
  - intros st [f v |] [P S]; cbn [step].
    + unfold handleInputChange. destruct (submitted st) eqn:E.
      * split; [destruct f; cbn; congruence |]. intros _ field.
        specialize (S eq_refl).
        destruct f, field; cbn; try reflexivity;
          [apply (S Weight) | apply (S Height)].
      * split; [| destruct f; cbn; congruence]. intros _.
        destruct (P eq_refl) as (Pe & Pb & Pc). destruct f; cbn; auto.
    + split; [rewrite calculate_submitted; discriminate |]. intros _ field.
      destruct (validInputs_dec st) as [V | V].
      * rewrite (calculate_valid NumberToString st V). destruct V as [Vh Vw].
        destruct field; cbn; congruence.
      * rewrite (calculate_invalid NumberToString st V). destruct field; reflexivity.
  - split; [cbn; auto | discriminate].
Qed.

(** X4: before the first submission the state is the initial one with the
    two texts replaced by their last edits: no error, no score, no
    category. *)
Theorem X4_pristine_state evs :
  submitted (runFrom initialState evs) = false ->
  runFrom initialState evs
  = mkState (lastEdit Height evs "") (lastEdit Weight evs "") None ""
      Errors.empty false.
Proof.
  intros H. destruct (reachable_errors evs) as [P _].
  destruct (P H) as (Pe & Pb & Pc).
  pose proof (texts_last_edit evs initialState Height) as Th.
  pose proof (texts_last_edit evs initialState Weight) as Tw.
  destruct (runFrom initialState evs) as [h w b c e s]. cbn in *.
  congruence.
Qed.

(** X5: once the form has been submitted, the error held for a field is
    always the validation result of the text the field holds now, and that
    is the message shown under the field; before the first submission no
    message is shown. *)
Theorem X5_field_errors_follow_texts evs field :
  (submitted (runFrom initialState evs) = true ->
   Errors.get field (errors (runFrom initialState evs))
   = validateField field (fieldText field (runFrom initialState evs)))
  /\ fieldErrorShown field (runFrom initialState evs)
     = if submitted (runFrom initialState evs)
       then validateField field (fieldText field (runFrom initialState evs))
       else None.
Proof.
  destruct (reachable_errors evs) as [_ S].
  split; [intros H; apply (S H) |].
  unfold fieldErrorShown.
  destruct (submitted (runFrom initialState evs)); [| reflexivity].
  rewrite (S eq_refl field), truthy_validateField.
  destruct (validateField field (fieldText field (runFrom initialState evs)));
    reflexivity.
Qed.

(** X6: submitting twice in a row gives the same state as submitting
    once. *)
Theorem X6_submit_idempotent st :
  calculateBMI NumberToString (calculateBMI NumberToString st)
  = calculateBMI NumberToString st.
Proof.
  destruct (validInputs_dec st) as [V | V].
  - assert (V' : validInputs (calculate st)).
    { rewrite (calculate_valid NumberToString st V). exact V. }
    rewrite (calculate_valid NumberToString _ V').
    rewrite (calculate_valid NumberToString st V). reflexivity.
  - assert (V' : ~ validInputs (calculate st)).
    { rewrite (calculate_invalid NumberToString st V). exact V. }
    rewrite (calculate_invalid NumberToString _ V').
    rewrite (calculate_invalid NumberToString st V). reflexivity.
Qed.

(** X7: a submission of two texts that validate yields the state with
    the same texts, the new score and category, no error at all and the
    flag set, whatever score, category and errors were there before. *)
Theorem X7_successful_submission st :
  validInputs st ->
  calculate st
  = mkState (height st) (weight st)
      (Some (storedScore (bmiValueOf (height st) (weight st))))
      (categoryOf (bmiValueOf (height st) (weight st)))
      Errors.empty true.
Proof. intros V. rewrite (calculate_valid NumberToString st V). reflexivity. Qed.

(** X8: edits alone, however many, change neither the score, nor the
    category, nor the flag, nor the general error: the result shown
    stays the one of the last submission while the texts change. *)
Theorem X8_edits_keep_result st evs :
  onlyEdits evs ->
  bmi (runFrom st evs) = bmi st
  /\ category (runFrom st evs) = category st
  /\ submitted (runFrom st evs) = submitted st
  /\ Errors.general (errors (runFrom st evs)) = Errors.general (errors st).
Proof.
  revert st. induction evs as [| ev l IH]; intros st H; [repeat split |].
  cbn [run fold_left]. fold (runFrom (next st ev) l).
  destruct (IH (next st ev)) as (B & C & S & G).
  { intros e He. apply H. right. exact He. }
  rewrite B, C, S, G.
  destruct ev as [f v |]; [| exfalso; apply (H Submit); [left |]; reflexivity].
  cbn [step]. destruct (handleInputChange_result f v st) as (-> & -> & ->).
  rewrite handleInputChange_general. repeat split.
Qed.

Lemma snoc_split (A : Type) (l a b : list A) (e x : A) :
  (l ++ [e] = a ++ x :: b)%list ->
  (b = [] /\ l = a /\ e = x)
  \/ (exists b', b = (b' ++ [e])%list /\ l = (a ++ x :: b')%list).
Proof.
  induction b as [| y b' _] using rev_ind; intros H.
  - left. apply app_inj_tail in H. destruct H as [-> ->]. auto.
  - right. exists b'.
    change (a ++ x :: b' ++ [y])%list with (a ++ (x :: b') ++ [y])%list in H.
    rewrite app_assoc in H. apply app_inj_tail in H. destruct H as [-> ->].
    auto.
Qed.

(** X9: the score and the category of a reachable state are those computed
    by the last submission made while both texts validated, from the texts
    of that moment; every submission after it failed validation. *)
Theorem X9_result_of_last_successful_submission evs :
  bmi (runFrom initialState evs) <> None ->
  exists pre post,
    evs = (pre ++ Submit :: post)%list
    /\ validInputs (runFrom initialState pre)
    /\ bmi (runFrom initialState evs)
       = Some (storedScore (bmiValueOf (height (runFrom initialState pre))
                              (weight (runFrom initialState pre))))
    /\ category (runFrom initialState evs)
       = categoryOf (bmiValueOf (height (runFrom initialState pre))
                       (weight (runFrom initialState pre)))
    /\ (forall pre' post',
          post = (pre' ++ Submit :: post')%list ->
          ~ validInputs (runFrom initialState (pre ++ Submit :: pre')%list)).
Proof.
  induction evs as [| e evs' IH] using rev_ind.
  - intros H. exfalso. apply H. reflexivity.
  - rewrite run_snoc.
    assert (Keep : bmi (next (runFrom initialState evs') e)
                   = bmi (runFrom initialState evs')
                   /\ category (next (runFrom initialState evs') e)
                      = category (runFrom initialState evs') ->
                   (e = Submit -> ~ validInputs (runFrom initialState evs')) ->
                   bmi (next (runFrom initialState evs') e) <> None ->
                   exists pre post,
                     (evs' ++ [e])%list = (pre ++ Submit :: post)%list
                     /\ validInputs (runFrom initialState pre)
                     /\ bmi (next (runFrom initialState evs') e)
                        = Some (storedScore
                                  (bmiValueOf (height (runFrom initialState pre))
                                     (weight (runFrom initialState pre))))
                     /\ category (next (runFrom initialState evs') e)
                        = categoryOf
                            (bmiValueOf (height (runFrom initialState pre))
                               (weight (runFrom initialState pre)))
                     /\ (forall pre' post',
                           (post = pre' ++ Submit :: post')%list ->
                           ~ validInputs
                               (runFrom initialState (pre ++ Submit :: pre')%list))).
    { intros [Eb Ec] Hs H. rewrite Eb, Ec in *.
      destruct (IH H) as (pre & post & -> & V & B & C & L).
      exists pre, (post ++ [e])%list.
      split; [rewrite <- app_assoc; reflexivity |].
      split; [exact V |]. split; [exact B |]. split; [exact C |].
      intros pre' post' E. apply snoc_split in E.
      destruct E as [(-> & -> & ->) | (b' & -> & ->)].
      - apply Hs. reflexivity.
      - apply (L pre' b'). reflexivity. }
    destruct e as [f v |]; cbn [step] in *.
    + apply Keep; [| discriminate].
      destruct (handleInputChange_result f v (runFrom initialState evs'))
        as (-> & -> & _). auto.
    + destruct (validInputs_dec (runFrom initialState evs')) as [V | V].
      * intros _. exists evs', []. split; [reflexivity |]. split; [exact V |].
        rewrite (calculate_valid NumberToString _ V).
        split; [reflexivity |]. split; [reflexivity |].
        intros pre' post' E. destruct pre'; discriminate E.
      * apply Keep; [| intros _; exact V].
        rewrite (calculate_invalid NumberToString _ V). auto.
Qed.

(** ** The score and its category *)

Lemma posFinite_pos x : posFinite x -> (0 < toQ x)%Q.
Proof.
  intros P. destruct (posFinite_inv x P) as (m & e & -> & _).
  rewrite toQ_finite. apply F2Q_pos. lia.
Qed.

(** Rounding at the tenths digit keeps a quotient between two data that
    are whole numbers of tenths. *)
Lemma storedScore_between q lo hi L U :
  posFinite q -> posFinite lo -> posFinite hi ->
  (toQ lo == inject_Z L / 10)%Q -> (toQ hi == inject_Z U / 10)%Q ->
  (toQ lo <= toQ q)%Q -> (toQ q <= toQ hi)%Q ->
  posFinite (storedScore q)
  /\ (toQ lo <= toQ (storedScore q))%Q /\ (toQ (storedScore q) <= toQ hi)%Q.
Proof.
  intros Pq Plo Phi El Eh Lq Uq.
  pose proof (posFinite_pos lo Plo) as Pos.
  assert (El' : (inject_Z L == toQ lo * 10)%Q) by (rewrite El; field).
  assert (Eh' : (inject_Z U == toQ hi * 10)%Q) by (rewrite Eh; field).
  assert (PL : 0 < L).
  { rewrite Zlt_Qlt. change (inject_Z 0) with 0%Q. lra. }
  unfold storedScore, roundTenths, roundHalfAway.
  destruct (Qlt_le_dec (toQ q * 10) 0) as [C | _]; [lra |].
  remember (Qfloor (toQ q * 10 + (1 # 2))) as n eqn:En.
  assert (Ln : L <= n).
  { rewrite <- (Qfloor_Z L), En. apply Qfloor_resp_le. lra. }
  assert (Un : n <= U).
  { assert (S : n < U + 1); [| lia].
    rewrite Zlt_Qlt, inject_Z_plus. change (inject_Z 1) with 1%Q.
    pose proof (Qfloor_le (toQ q * 10 + (1 # 2))) as F. rewrite <- En in F.
    lra. }
  destruct n as [| p | p]; try lia.
  cbn [Z.to_N ofDecimal].
  change (ofRatio false p (10 ^ 1))
    with (div (S754_finite false p 0) (S754_finite false 10 0)).
  assert (V : (F2Q (Z.pos p) 0 / F2Q (Z.pos 10) 0 == inject_Z (Z.pos p) / 10)%Q).
  { unfold F2Q. change (Qpower 2 0) with 1%Q. change (inject_Z 10) with 10%Q.
    field. }
  assert (Lp : (inject_Z L <= inject_Z (Z.pos p))%Q) by (rewrite <- Zle_Qle; lia).
  assert (Up : (inject_Z (Z.pos p) <= inject_Z U)%Q) by (rewrite <- Zle_Qle; lia).
  apply (rounds_to_bounds _ _ lo hi (div_rounds false p 0 false 10 0) Plo Phi).
  - rewrite V, El. unfold Qdiv. apply Qmult_le_compat_r; [exact Lp | discriminate].
  - rewrite V, Eh. unfold Qdiv. apply Qmult_le_compat_r; [exact Up | discriminate].
Qed.

(** The score stored for two texts that validate, against the category
    chosen for them. *)
Lemma validated_result heightText weightText :
  validateField Height heightText = None ->
  validateField Weight weightText = None ->
  posFinite (storedScore (bmiValueOf heightText weightText))
  /\ (3 <= toQ (storedScore (bmiValueOf heightText weightText)) <= 2000)%Q
  /\ (categoryOf (bmiValueOf heightText weightText) = "Underweight" ->
      (toQ (storedScore (bmiValueOf heightText weightText)) <= 185 # 10)%Q)
  /\ (categoryOf (bmiValueOf heightText weightText) = "Normal weight" ->
      (185 # 10 <= toQ (storedScore (bmiValueOf heightText weightText)) <= 25)%Q)
  /\ (categoryOf (bmiValueOf heightText weightText) = "Overweight" ->
      (25 <= toQ (storedScore (bmiValueOf heightText weightText)) <= 30)%Q)
  /\ (categoryOf (bmiValueOf heightText weightText) = "Obese" ->
      (30 <= toQ (storedScore (bmiValueOf heightText weightText)))%Q).
Proof.
  intros Hh Hw.
  destruct (validated_quotient _ _ Hh Hw) as (P & L & U).
  set (q := bmiValueOf heightText weightText) in *.
  destruct (categoryOf_bands q P) as (C1 & C2 & C3 & C4).
  destruct (bands_toQ q P) as (B1 & B2 & B3 & B4).
  pose (n3 := ofDecimal false 3 0). pose (n2000 := ofDecimal false 2000 0).
  assert (P3 : posFinite n3) by (vm_compute; reflexivity).
  assert (P2000 : posFinite n2000) by (vm_compute; reflexivity).
  assert (P185 : posFinite num_18_5) by reflexivity.
  assert (P25 : posFinite num_25) by reflexivity.
  assert (P30 : posFinite num_30) by reflexivity.
  assert (E3 : (toQ n3 == 3)%Q) by (vm_compute; reflexivity).
  assert (E2000 : (toQ n2000 == 2000)%Q) by (vm_compute; reflexivity).
  assert (E185 : (toQ num_18_5 == 185 # 10)%Q) by (vm_compute; reflexivity).
  assert (E25 : (toQ num_25 == 25)%Q) by (vm_compute; reflexivity).
  assert (E30 : (toQ num_30 == 30)%Q) by (vm_compute; reflexivity).
  assert (T3 : (toQ n3 == inject_Z 30 / 10)%Q) by (vm_compute; reflexivity).
  assert (T2000 : (toQ n2000 == inject_Z 20000 / 10)%Q) by (vm_compute; reflexivity).
  assert (T185 : (toQ num_18_5 == inject_Z 185 / 10)%Q) by (vm_compute; reflexivity).
  assert (T25 : (toQ num_25 == inject_Z 250 / 10)%Q) by (vm_compute; reflexivity).
  assert (T30 : (toQ num_30 == inject_Z 300 / 10)%Q) by (vm_compute; reflexivity).
  assert (K : forall lo hi Lo Hi,
             posFinite lo -> posFinite hi ->
             (toQ lo == inject_Z Lo / 10)%Q -> (toQ hi == inject_Z Hi / 10)%Q ->
             (toQ lo <= toQ q)%Q -> (toQ q <= toQ hi)%Q ->
             (toQ lo <= toQ (storedScore q))%Q /\ (toQ (storedScore q) <= toQ hi)%Q).
  { intros lo hi Lo Hi Plo Phi El Eh Lq Uq.
    apply (storedScore_between q lo hi Lo Hi P Plo Phi El Eh Lq Uq). }
  destruct (storedScore_between q n3 n2000 30 20000 P P3 P2000 T3 T2000
              ltac:(lra) ltac:(lra)) as (Ps & Ls & Us).
  split; [exact Ps |]. split; [lra |].
  split; [| split; [| split]].
  - intros E. apply C1, B1 in E.
    destruct (K n3 num_18_5 30 185 P3 P185 T3 T185 ltac:(lra) ltac:(lra)). lra.
  - intros E. apply C2, B2 in E.
    destruct (K num_18_5 num_25 185 250 P185 P25 T185 T25 ltac:(lra) ltac:(lra)).
    lra.
  - intros E. apply C3, B3 in E.
    destruct (K num_25 num_30 250 300 P25 P30 T25 T30 ltac:(lra) ltac:(lra)).
    lra.
  - intros E. apply C4, B4 in E.
    destruct (K num_30 n2000 300 20000 P30 P2000 T30 T2000 ltac:(lra) ltac:(lra)).
    lra.
Qed.

(** A state the form can reach holds no result and no category, or the
    result of two texts that validated. *)
Lemma reachable_result evs :
  match bmi (runFrom initialState evs) with
  | None => category (runFrom initialState evs) = ""
  | Some score =>
      exists heightText weightText,
        validateField Height heightText = None
        /\ validateField Weight weightText = None
        /\ score = storedScore (bmiValueOf heightText weightText)
        /\ category (runFrom initialState evs)
           = categoryOf (bmiValueOf heightText weightText)
  end.
Proof.
  induction evs as [| e evs' IH] using rev_ind; [reflexivity |].
  rewrite run_snoc. destruct e as [f v |]; cbn [step].
  - destruct (handleInputChange_result f v (runFrom initialState evs'))
      as (-> & -> & _). exact IH.
  - destruct (validInputs_dec (runFrom initialState evs')) as [V | V].
    + rewrite (calculate_valid NumberToString _ V). cbn.
      exists (height (runFrom initialState evs')),
        (weight (runFrom initialState evs')).
      destruct V as [Hh Hw]. repeat split; assumption.
    + rewrite (calculate_invalid NumberToString _ V). exact IH.
Qed.

(** X10: the score held by a reachable state is a finite number between 3
    and 2000, and it lies in the closed band of the category held with it:
    at most 18.5 for "Underweight", from 18.5 to 25 for "Normal weight",
    from 25 to 30 for "Overweight", at least 30 for "Obese". *)
Theorem X10_score_within_band_of_category evs score :
  bmi (runFrom initialState evs) = Some score ->
  posFinite score
  /\ (3 <= toQ score <= 2000)%Q
  /\ (category (runFrom initialState evs) = "Underweight" ->
      (toQ score <= 185 # 10)%Q)
  /\ (category (runFrom initialState evs) = "Normal weight" ->
      (185 # 10 <= toQ score <= 25)%Q)
  /\ (category (runFrom initialState evs) = "Overweight" ->
      (25 <= toQ score <= 30)%Q)
  /\ (category (runFrom initialState evs) = "Obese" -> (30 <= toQ score)%Q).
Proof.
  intros B. pose proof (reachable_result evs) as R. rewrite B in R.
  destruct R as (h & w & Hh & Hw & -> & ->).
  exact (validated_result h w Hh Hw).
Qed.

(** A state the form can reach holds no result and no category, or a
    result with one of the four categories of the component. *)
Lemma reachable_category evs :
  (bmi (runFrom initialState evs) = None
   /\ category (runFrom initialState evs) = "")
  \/ (bmi (runFrom initialState evs) <> None
      /\ In (category (runFrom initialState evs)) componentCategories).
Proof.
  pose proof (reachable_result evs) as R.
  destruct (bmi (runFrom initialState evs)) as [score |].
  - right. destruct R as (h & w & _ & _ & _ & ->).
    split; [discriminate | apply (categoryOf_component NumberToString)].
  - left. split; [reflexivity | exact R].
Qed.

(** X11: in a reachable state the styles of the result block are the
    default ones exactly when there is no result, so the block that is
    shown never has them; and the styles tell the categories apart. *)
Theorem X11_styles_identify_category evs evs' :
  (getCategoryStyles (runFrom initialState evs) = defaultStyles
   <-> resultShown (runFrom initialState evs) = false)
  /\ (getCategoryStyles (runFrom initialState evs)
      = getCategoryStyles (runFrom initialState evs') ->
      category (runFrom initialState evs)
      = category (runFrom initialState evs')).
Proof.
  unfold getCategoryStyles, resultShown. split.
  - destruct (reachable_category evs) as [[B C] | [B C]].
    + rewrite B, C. split; reflexivity.
    + destruct (bmi (runFrom initialState evs)); [| congruence].
      cbn in C. destruct C as [<- | [<- | [<- | [<- | []]]]];
        split; discriminate.
  - assert (K : forall l, In (category (runFrom initialState l))
                            ("" :: componentCategories)).
    { intros l. destruct (reachable_category l) as [[_ C] | [_ C]].
      - left. symmetry. exact C.
      - right. exact C. }
    pose proof (K evs) as C. pose proof (K evs') as C'. cbn in C, C'.
    destruct C as [C | [C | [C | [C | [C | []]]]]];
      destruct C' as [C' | [C' | [C' | [C' | [C' | []]]]]];
      rewrite <- C, <- C'; intros H; first [reflexivity | discriminate H].
Qed.

(** ** The marker of the scale *)

(** Two finite positive numbers of the same value are the same datum. *)
Lemma posFinite_eq x y : posFinite x -> posFinite y -> (toQ x == toQ y)%Q -> x = y.
Proof.
  intros Px Py E. pose proof (posFinite_compare x y Px Py) as C.
  apply Qeq_alt in E. rewrite E in C.
  destruct (posFinite_inv x Px) as (mx & ex & -> & _).
  destruct (posFinite_inv y Py) as (my & ey & -> & _).
  cbn [SFcompare] in C.
  destruct (Z.compare_spec ex ey) as [Ee | |]; try discriminate.
  injection C as C. apply Pos.compare_eq in C. congruence.
Qed.

(** The clamped score (line 153) of a finite positive score. *)
Lemma clamp_value score :
  posFinite score ->
  Math_max [num_10; Math_min [score; num_40]]
  = if ltb num_40 score then num_40
    else if ltb num_10 score then score else num_10.
Proof.
  intros P. destruct (posFinite_inv score P) as (m & e & -> & _).
  set (b := S754_finite false m e) in *.
  assert (EM : Math_min [(b : number); num_40]
               = if ltb num_40 b then num_40 else b) by reflexivity.
  rewrite EM. destruct (ltb num_40 b); reflexivity.
Qed.

Lemma clamp_between score (lo hi : Q) :
  posFinite score ->
  (lo <= toQ score)%Q -> (toQ score <= hi)%Q -> (lo <= 40)%Q -> (10 <= hi)%Q ->
  posFinite (Math_max [num_10; Math_min [score; num_40]])
  /\ (10 <= toQ (Math_max [num_10; Math_min [score; num_40]]))%Q
  /\ (lo <= toQ (Math_max [num_10; Math_min [score; num_40]]))%Q
  /\ (toQ (Math_max [num_10; Math_min [score; num_40]]) <= hi)%Q.
Proof.
  intros P L U L40 U10. rewrite (clamp_value score P).
  assert (E10 : (toQ num_10 == 10)%Q) by (vm_compute; reflexivity).
  assert (E40 : (toQ num_40 == 40)%Q) by (vm_compute; reflexivity).
  assert (P10 : posFinite num_10) by reflexivity.
  assert (P40 : posFinite num_40) by reflexivity.
  destruct (ltb num_40 score) eqn:C40.
  - apply (posFinite_ltb _ _ P40 P) in C40.
    split; [exact P40 |]. rewrite E40. repeat split; lra.
  - destruct (ltb num_10 score) eqn:C10.
    + apply (posFinite_ltb _ _ P10 P) in C10.
      split; [exact P |]. repeat split; lra.
    + assert (N : ~ (toQ num_10 < toQ score)%Q).
      { intros C. apply (posFinite_ltb _ _ P10 P) in C. congruence. }
      split; [exact P10 |]. rewrite E10. repeat split; lra.
Qed.

(** The difference of two finite positive numbers between two positive
    data. *)
Lemma sub_posFinite_between c lo l h :
  posFinite c -> posFinite lo -> posFinite l -> posFinite h ->
  (toQ l <= toQ c - toQ lo)%Q -> (toQ c - toQ lo <= toQ h)%Q ->
  posFinite (sub c lo)
  /\ (toQ l <= toQ (sub c lo))%Q /\ (toQ (sub c lo) <= toQ h)%Q.
Proof.
  intros Pc Plo Pl Ph L U. pose proof (posFinite_pos l Pl) as Pos.
  destruct (posFinite_inv c Pc) as (mc & ec & -> & _).
  destruct (posFinite_inv lo Plo) as (ml & el & -> & _).
  rewrite !toQ_finite in L, U.
  unfold sub, SFsub. cbn [cond_Zopp].
  set (ez := Z.min ec el).
  pose proof (shl_align_spec mc ec ez) as Ac.
  pose proof (shl_align_spec ml el ez) as Al.
  destruct (shl_align mc ec ez) as [mc' ec'].
  destruct (shl_align ml el ez) as [ml' el'].
  destruct Ac as (_ & Ec & Xc & _). destruct Al as (_ & El & Xl & _).
  specialize (Xc ltac:(subst ez; lia)). specialize (Xl ltac:(subst ez; lia)).
  subst ec' el'. cbn [fst].
  assert (Vc : (F2Q (Z.pos mc) ec == F2Q (Z.pos mc') ez)%Q).
  { rewrite Ec. apply F2Q_align. subst ez. lia. }
  assert (Vl : (F2Q (Z.pos ml) el == F2Q (Z.pos ml') ez)%Q).
  { rewrite El. apply F2Q_align. subst ez. lia. }
  assert (Vd : (F2Q (Z.pos mc' - Z.pos ml') ez
                == F2Q (Z.pos mc) ec - F2Q (Z.pos ml) el)%Q).
  { rewrite Vc, Vl. unfold F2Q, Z.sub.
    rewrite inject_Z_plus, inject_Z_opp. ring. }
  assert (D : Z.pos ml' < Z.pos mc').
  { apply (F2Q_lt_inv _ _ ez). rewrite <- Vc, <- Vl. lra. }
  destruct (Z.pos mc' - Z.pos ml') as [| d | d] eqn:Ed; try lia.
  cbn [binary_normalize].
  apply (rounds_to_bounds (F2Q (Z.pos d) ez) _ l h).
  - apply binary_round_rounds.
  - exact Pl.
  - exact Ph.
  - rewrite Vd. exact L.
  - rewrite Vd. exact U.
Qed.

(** The position computed at line 155 for a clamped score, between two
    data, through bounds of the difference and of the quotient. *)
Lemma position_between c s1 s2 d1 d2 p1 p2 :
  posFinite c ->
  posFinite s1 -> posFinite s2 -> posFinite d1 -> posFinite d2 ->
  posFinite p1 -> posFinite p2 ->
  (toQ s1 <= toQ c - 10)%Q -> (toQ c - 10 <= toQ s2)%Q ->
  (toQ d1 * 30 <= toQ s1)%Q -> (toQ s2 <= toQ d2 * 30)%Q ->
  (toQ p1 <= toQ d1 * 100)%Q -> (toQ d2 * 100 <= toQ p2)%Q ->
  (toQ p1 <= toQ (mul (div (sub c num_10) num_30) num_100))%Q
  /\ (toQ (mul (div (sub c num_10) num_30) num_100) <= toQ p2)%Q.
Proof.
  intros Pc Ps1 Ps2 Pd1 Pd2 Pp1 Pp2 S1 S2 D1 D2 M1 M2.
  assert (E10 : (toQ num_10 == 10)%Q) by (vm_compute; reflexivity).
  assert (E30 : (toQ num_30 == 30)%Q) by (vm_compute; reflexivity).
  assert (E100 : (toQ num_100 == 100)%Q) by (vm_compute; reflexivity).
  assert (P10 : posFinite num_10) by reflexivity.
  assert (P30 : posFinite num_30) by reflexivity.
  assert (P100 : posFinite num_100) by reflexivity.
  destruct (sub_posFinite_between c num_10 s1 s2 Pc P10 Ps1 Ps2)
    as (Ps & Ls & Us); [rewrite E10; exact S1 | rewrite E10; exact S2 |].
  destruct (rounds_to_bounds _ _ d1 d2
              (div_posFinite (sub c num_10) num_30 Ps P30) Pd1 Pd2)
    as (Pd & Ld & Ud).
  { apply Qle_shift_div_l; rewrite E30; lra. }
  { apply Qle_shift_div_r; rewrite E30; lra. }
  destruct (rounds_to_bounds _ _ p1 p2
              (mul_posFinite (div (sub c num_10) num_30) num_100 Pd P100)
              Pp1 Pp2) as (_ & Lm & Um).
  { rewrite E100. lra. }
  { rewrite E100. lra. }
  split; assumption.
Qed.

(** The same from above only, where the difference may vanish. *)
Lemma position_upper c s2 d2 p2 :
  posFinite c -> (10 <= toQ c)%Q ->
  posFinite s2 -> posFinite d2 -> posFinite p2 ->
  (toQ c - 10 <= toQ s2)%Q -> (toQ s2 <= toQ d2 * 30)%Q ->
  (toQ d2 * 100 <= toQ p2)%Q ->
  (toQ (mul (div (sub c num_10) num_30) num_100) <= toQ p2)%Q.
Proof.
  intros Pc Lc Ps2 Pd2 Pp2 S2 D2 M2.
  assert (E10 : (toQ num_10 == 10)%Q) by (vm_compute; reflexivity).
  assert (E30 : (toQ num_30 == 30)%Q) by (vm_compute; reflexivity).
  assert (E100 : (toQ num_100 == 100)%Q) by (vm_compute; reflexivity).
  assert (S : sub c num_10 = S754_zero false
              \/ (posFinite (sub c num_10) /\ (toQ (sub c num_10) <= toQ s2)%Q)).
  { apply sub_posFinite_upper; try reflexivity; try assumption.
    - rewrite E10. exact Lc.
    - rewrite E10. exact S2. }
  assert (D : div (sub c num_10) num_30 = S754_zero false
              \/ (posFinite (div (sub c num_10) num_30)
                  /\ (toQ (div (sub c num_10) num_30) <= toQ d2)%Q)).
  { apply div_upper; try reflexivity; try assumption.
    - destruct S as [Z0 | [P _]]; auto.
    - destruct S as [-> | [_ U]]; rewrite E30.
      + change (toQ (S754_zero false)) with 0%Q.
        pose proof (posFinite_pos d2 Pd2). lra.
      + lra. }
  assert (M : mul (div (sub c num_10) num_30) num_100 = S754_zero false
              \/ (posFinite (mul (div (sub c num_10) num_30) num_100)
                  /\ (toQ (mul (div (sub c num_10) num_30) num_100)
                      <= toQ p2)%Q)).
  { apply mul_upper; try reflexivity; try assumption.
    - destruct D as [Z0 | [P _]]; auto.
    - destruct D as [-> | [_ U]]; rewrite E100.
      + change (toQ (S754_zero false)) with 0%Q.
        pose proof (posFinite_pos p2 Pp2). lra.
      + lra. }
  destruct M as [-> | [_ U]]; [| exact U].
  change (toQ (S754_zero false)) with 0%Q.
  apply Qlt_le_weak, posFinite_pos, Pp2.
Qed.

(** X12: in a reachable state the marker of the scale lies in the half of
    the bar of its category: at most 50 for "Underweight" and "Normal
    weight", at least 50 for "Overweight" and "Obese"; for "Normal weight"
    it is at least 25 and for "Overweight" at most 75, the coloured
    quarters of the two. *)
Theorem X12_marker_follows_category evs :
  (category (runFrom initialState evs) = "Underweight"
   \/ category (runFrom initialState evs) = "Normal weight" ->
   (toQ (getBmiScalePosition (runFrom initialState evs)) <= 50)%Q)
  /\ (category (runFrom initialState evs) = "Normal weight" ->
      (25 <= toQ (getBmiScalePosition (runFrom initialState evs)))%Q)
  /\ (category (runFrom initialState evs) = "Overweight"
      \/ category (runFrom initialState evs) = "Obese" ->
      (50 <= toQ (getBmiScalePosition (runFrom initialState evs)) <= 100)%Q)
  /\ (category (runFrom initialState evs) = "Overweight" ->
      (toQ (getBmiScalePosition (runFrom initialState evs)) <= 75)%Q).
Proof.
  pose proof (reachable_result evs) as R. unfold getBmiScalePosition.
  destruct (bmi (runFrom initialState evs)) as [score |];
    [| rewrite R; split; [| split; [| split]]; intros E;
       try destruct E as [E | E]; discriminate E].
  destruct R as (h & w & Hh & Hw & -> & ->).
  destruct (validated_result h w Hh Hw) as (P & [L U] & K1 & K2 & K3 & K4).
  set (score := storedScore (bmiValueOf h w)) in *.
  set (c := Math_max [num_10; Math_min [score; num_40]]).
  pose (n7_5 := ofDecimal false 75 (-1)). pose (n15 := ofDecimal false 15 0).
  pose (n20 := ofDecimal false 20 0). pose (quarter := ofDecimal false 25 (-2)).
  pose (half := ofDecimal false 5 (-1)). pose (threeq := ofDecimal false 75 (-2)).
  pose (one := ofDecimal false 1 0).
  assert (P7_5 : posFinite n7_5) by (vm_compute; reflexivity).
  assert (P15 : posFinite n15) by (vm_compute; reflexivity).
  assert (P20 : posFinite n20) by (vm_compute; reflexivity).
  assert (P30 : posFinite num_30) by reflexivity.
  assert (Pq : posFinite quarter) by (vm_compute; reflexivity).
  assert (Ph : posFinite half) by (vm_compute; reflexivity).
  assert (Pt : posFinite threeq) by (vm_compute; reflexivity).
  assert (Po : posFinite one) by (vm_compute; reflexivity).
  assert (P25 : posFinite num_25) by reflexivity.
  assert (P50 : posFinite num_50) by reflexivity.
  assert (P75 : posFinite num_75) by reflexivity.
  assert (P100 : posFinite num_100) by reflexivity.
  assert (E7_5 : (toQ n7_5 == 75 # 10)%Q) by (vm_compute; reflexivity).
  assert (E15 : (toQ n15 == 15)%Q) by (vm_compute; reflexivity).
  assert (E20 : (toQ n20 == 20)%Q) by (vm_compute; reflexivity).
  assert (E30 : (toQ num_30 == 30)%Q) by (vm_compute; reflexivity).
  assert (Eq : (toQ quarter == 1 # 4)%Q) by (vm_compute; reflexivity).
  assert (Eh : (toQ half == 1 # 2)%Q) by (vm_compute; reflexivity).
  assert (Et : (toQ threeq == 3 # 4)%Q) by (vm_compute; reflexivity).
  assert (Eo : (toQ one == 1)%Q) by (vm_compute; reflexivity).
  assert (E25 : (toQ num_25 == 25)%Q) by (vm_compute; reflexivity).
  assert (E50 : (toQ num_50 == 50)%Q) by (vm_compute; reflexivity).
  assert (E75 : (toQ num_75 == 75)%Q) by (vm_compute; reflexivity).
  assert (E100 : (toQ num_100 == 100)%Q) by (vm_compute; reflexivity).
  split; [| split; [| split]].
  - intros E.
    assert (U25 : (toQ score <= 25)%Q).
    { destruct E as [E | E]; [apply K1 in E | apply K2 in E]; lra. }
    destruct (clamp_between score 3 25 P L U25 ltac:(lra) ltac:(lra))
      as (Pc & Lc & _ & Uc). fold c in Pc, Lc, Uc.
    rewrite <- E50.
    apply (position_upper c n15 half num_50); try assumption;
      rewrite ?E15, ?Eh, ?E50; lra.
  - intros E. apply K2 in E.
    destruct (clamp_between score (185 # 10) 25 P ltac:(lra) ltac:(lra)
                ltac:(lra) ltac:(lra)) as (Pc & _ & Lc & Uc).
    fold c in Pc, Lc, Uc. rewrite <- E25.
    apply (position_between c n7_5 n15 quarter half num_25 num_50);
      try assumption; rewrite ?E7_5, ?E15, ?Eq, ?Eh, ?E25, ?E50; lra.
  - intros E.
    assert (L25 : (25 <= toQ score)%Q).
    { destruct E as [E | E]; [apply K3 in E | apply K4 in E]; lra. }
    destruct (clamp_between score 25 2000 P L25 U ltac:(lra) ltac:(lra))
      as (Pc & _ & Lc & _).
    fold c in Pc, Lc. rewrite <- E50, <- E100.
    assert (Uc : (toQ c <= 40)%Q).
    { destruct (clamp_range score) as (_ & _ & H).
      - destruct (posFinite_inv score P) as (m & e & Es & _).
        rewrite Es in *. exact P.
      - destruct (posFinite_isFinite score P) as [_ N]. exact N.
      - exact H. }
    apply (position_between c n15 num_30 half one num_50 num_100);
      try assumption; rewrite ?E15, ?E30, ?Eh, ?Eo, ?E50, ?E100; lra.
  - intros E. apply K3 in E.
    destruct (clamp_between score 25 30 P ltac:(lra) ltac:(lra)
                ltac:(lra) ltac:(lra)) as (Pc & _ & Lc & Uc).
    fold c in Pc, Lc, Uc. rewrite <- E75.
    apply (position_between c n15 n20 half threeq num_50 num_75);
      try assumption; rewrite ?E15, ?E20, ?Eh, ?Et, ?E50, ?E75; lra.
Qed.

End Extras.

(** X13: the marker saturates: for every well-formed score of at least 40
    the position is exactly 100, and for every one of at most 10, negative
    ones and zeros included, it is exactly 0. *)
Theorem X13_marker_saturates st score :
  bmi st = Some score -> valid score = true ->
  (leb num_40 score = true -> getBmiScalePosition st = num_100)
  /\ (leb score num_10 = true -> getBmiScalePosition st = num_0).
Proof.
  intros B V. unfold getBmiScalePosition. rewrite B.
  assert (E10 : (toQ num_10 == 10)%Q) by (vm_compute; reflexivity).
  assert (E40 : (toQ num_40 == 40)%Q) by (vm_compute; reflexivity).
  assert (P10 : posFinite num_10) by reflexivity.
  assert (P40 : posFinite num_40) by reflexivity.
  destruct score as [[] | [] | | [] m e]; split; intros H;
    try discriminate H; try reflexivity.
  - set (b := S754_finite false m e) in *.
    assert (P : posFinite b) by exact V.
    apply (posFinite_leb _ _ P40 P) in H.
    rewrite (clamp_value b P).
    destruct (ltb num_40 b) eqn:C40; [reflexivity |].
    assert (N : ~ (toQ num_40 < toQ b)%Q).
    { intros C. apply (posFinite_ltb _ _ P40 P) in C. congruence. }
    assert (Eb : b = num_40).
    { apply posFinite_eq; [exact P | exact P40 | lra]. }
    rewrite Eb. reflexivity.
  - set (b := S754_finite false m e) in *.
    assert (P : posFinite b) by exact V.
    apply (posFinite_leb _ _ P P10) in H.
    rewrite (clamp_value b P).
    assert (C40 : ltb num_40 b = false).
    { destruct (ltb num_40 b) eqn:C; [| reflexivity].
      apply (posFinite_ltb _ _ P40 P) in C. lra. }
    assert (C10 : ltb num_10 b = false).
    { destruct (ltb num_10 b) eqn:C; [| reflexivity].
      apply (posFinite_ltb _ _ P10 P) in C. lra. }
    rewrite C40, C10. reflexivity.
Qed.

(** ** Texts with something after the number *)

Lemma stopsNumber_head rest :
  stopsNumber rest = true ->
  match rest with
  | String c _ => digitOf c = None
  | EmptyString => True
  end.
Proof.
  destruct rest as [| c r]; [exact (fun _ => I) |]. cbn.
  destruct (digitOf c); [discriminate | reflexivity].
Qed.

Lemma lexDecimal_trailing digits rest :
  allDigits digits = true -> stopsNumber rest = true ->
  lexDecimal (digits ++ rest) = lexDecimal digits.
Proof.
  intros Hd Hr. unfold lexDecimal.
  rewrite (lexDigits_app digits rest Hd (stopsNumber_head rest Hr)).
  rewrite (lexDigits_allDigits digits Hd).
  destruct rest as [| c r]; [reflexivity |].
  destruct c as [[] [] [] [] [] [] [] []]; try discriminate Hr; reflexivity.
Qed.

(** A text that starts with a character that is not white space is not
    blank. *)
Lemma trim_head c r :
  isWhiteSpace c = false -> exists r', trim (String c r) = String c r'.
Proof.
  intros H. unfold trim. cbn [trimStart]. rewrite H. cbn [trimEnd].
  destruct (trimEnd r) as [| c' r']; [rewrite H |]; eexists; reflexivity.
Qed.

Lemma digit_not_whiteSpace c d : digitOf c = Some d -> isWhiteSpace c = false.
Proof.
  destruct c as [[] [] [] [] [] [] [] []]; cbn [digitOf]; intros H;
    try discriminate H; reflexivity.
Qed.

(** X14: the validator reads the number at the head of a text and ignores
    what follows it: digits followed by a text that does not continue the
    number parse to the same Number as the digits alone, and get the same
    validation result. *)
Theorem X14_trailing_text_ignored field digits rest :
  allDigits digits = true -> digits <> "" -> stopsNumber rest = true ->
  parseFloat (digits ++ rest) = parseFloat digits
  /\ validateField field (digits ++ rest) = validateField field digits.
Proof.
  intros Hd Ne Hr.
  destruct digits as [| c r]; [congruence |].
  assert (D : exists d, digitOf c = Some d).
  { cbn in Hd. destruct (digitOf c) as [d |]; [eauto | discriminate]. }
  destruct D as [d D].
  assert (E : parseFloat (String c r ++ rest) = parseFloat (String c r)).
  { change (String c r ++ rest) with (String c (r ++ rest)).
    rewrite (parseFloat_digit_head c (r ++ rest) d D).
    rewrite (parseFloat_digit_head c r d D).
    change (String c (r ++ rest)) with (String c r ++ rest).
    rewrite (lexDecimal_trailing (String c r) rest Hd Hr). reflexivity. }
  split; [exact E |].
  rewrite !validateField_eq, E.
  change (String c r ++ rest) with (String c (r ++ rest)).
  destruct (trim_head c (r ++ rest) (digit_not_whiteSpace c d D)) as [t1 ->].
  destruct (trim_head c r (digit_not_whiteSpace c d D)) as [t2 ->].
  reflexivity.
Qed.

(** ** Whole numbers *)

Local Open Scope Z_scope.

Lemma rounds_to_lower v x lo :
  rounds_to v false x -> posFinite lo -> (toQ lo <= v)%Q ->
  x = S754_infinity false \/ (posFinite x /\ (toQ lo <= toQ x)%Q).
Proof.
  intros (mf & ef & -> & P & C & _ & L) Hlo Lv.
  destruct (posFinite_inv lo Hlo) as (ml & el & -> & Cl & Bl).
  rewrite toQ_finite in *.
  specialize (L (Z.pos ml) el ltac:(lia) Cl Lv).
  assert (Pm : 0 < mf).
  { apply (F2Q_lt_inv _ _ ef). rewrite F2Q_0.
    apply Qlt_le_trans with (2 := L). apply F2Q_pos. lia. }
  specialize (C Pm).
  destruct mf as [| pf | pf]; try lia.
  unfold pack. change (emax - prec) with 971.
  destruct (Z.leb_spec ef 971) as [B | B]; [right | left; reflexivity].
  split; [| exact L]. cbn. apply (valid_finite_iff false). split; assumption.
Qed.

Lemma rounds_to_eq v v' s x : (v == v')%Q -> rounds_to v s x -> rounds_to v' s x.
Proof.
  intros E (mf & ef & X & P & C & U & L). exists mf, ef.
  split; [exact X |]. split; [exact P |]. split; [exact C |]. split.
  - intros mh eh Hm Hc H. apply (U mh eh Hm Hc). rewrite E. exact H.
  - intros ml el Hm Hc H. apply (L ml el Hm Hc). rewrite E. exact H.
Qed.

(** The Number value of a positive whole number is that number, rounded. *)
Lemma integer_rounds p :
  rounds_to (inject_Z (Z.pos p)) false (ofDecimal false (N.pos p) 0).
Proof.
  apply (rounds_to_eq (F2Q (Z.pos p) 0 / F2Q (Z.pos 1) 0)).
  - unfold F2Q. change (Qpower 2 0) with 1%Q. change (inject_Z 1) with 1%Q.
    field.
  - exact (div_rounds false p 0 false 1 0).
Qed.

Lemma posFinite_positive x :
  posFinite x -> isNaN x = false /\ leb x num_0 = false.
Proof.
  intros P. destruct (posFinite_inv x P) as (m & e & -> & _).
  split; reflexivity.
Qed.

Lemma posFinite_ltb_false x y :
  posFinite x -> posFinite y -> (toQ y <= toQ x)%Q -> ltb x y = false.
Proof.
  intros Px Py H. destruct (ltb x y) eqn:C; [| reflexivity].
  apply (posFinite_ltb x y Px Py) in C. lra.
Qed.

(** The comparisons of the validator at a positive whole number, for a
    range whose bounds and their neighbours are data. *)
Lemma integer_compare p one lo lo' hi hi' Lo Hi :
  posFinite one -> posFinite lo -> posFinite lo' ->
  posFinite hi -> posFinite hi' ->
  (toQ one == 1)%Q -> (toQ lo == inject_Z Lo)%Q ->
  (toQ lo' == inject_Z (Lo - 1))%Q ->
  (toQ hi == inject_Z Hi)%Q -> (toQ hi' == inject_Z (Hi + 1))%Q ->
  1 < Lo -> Lo <= Hi ->
  isNaN (ofDecimal false (N.pos p) 0) = false
  /\ leb (ofDecimal false (N.pos p) 0) num_0 = false
  /\ ltb (ofDecimal false (N.pos p) 0) lo = (Z.pos p <? Lo)
  /\ gtb (ofDecimal false (N.pos p) 0) hi = (Hi <? Z.pos p).
Proof.
  intros P1 Plo Plo' Phi Phi' E1 Elo Elo' Ehi Ehi' H1 H2.
  pose proof (integer_rounds p) as R.
  set (x := ofDecimal false (N.pos p) 0) in *.
  change (gtb x hi) with (ltb hi x).
  assert (L1 : (toQ one <= inject_Z (Z.pos p))%Q).
  { rewrite E1. change 1%Q with (inject_Z 1). rewrite <- Zle_Qle. lia. }
  destruct (Z.ltb_spec (Z.pos p) Lo) as [A | A].
  - assert (U : (inject_Z (Z.pos p) <= toQ lo')%Q).
    { rewrite Elo', <- Zle_Qle. lia. }
    destruct (rounds_to_bounds _ _ one lo' R P1 Plo' L1 U) as (Px & _ & Ux).
    destruct (posFinite_positive x Px) as [N0 L0].
    assert (Z1 : (toQ lo' < toQ lo)%Q).
    { rewrite Elo, Elo', <- Zlt_Qlt. lia. }
    assert (Z2 : (toQ lo <= toQ hi)%Q).
    { rewrite Elo, Ehi, <- Zle_Qle. lia. }
    split; [exact N0 |]. split; [exact L0 |]. split.
    + apply (posFinite_ltb x lo Px Plo). lra.
    + rewrite (posFinite_ltb_false hi x Phi Px) by lra.
      symmetry. apply Z.ltb_ge. lia.
  - destruct (Z.ltb_spec Hi (Z.pos p)) as [B | B].
    + assert (L : (toQ hi' <= inject_Z (Z.pos p))%Q).
      { rewrite Ehi', <- Zle_Qle. lia. }
      assert (Z1 : (toQ hi < toQ hi')%Q).
      { rewrite Ehi, Ehi', <- Zlt_Qlt. lia. }
      assert (Z2 : (toQ lo <= toQ hi)%Q).
      { rewrite Elo, Ehi, <- Zle_Qle. lia. }
      destruct (rounds_to_lower _ _ hi' R Phi' L) as [-> | [Px Lx]].
      * destruct (posFinite_inv lo Plo) as (ml & el & -> & _).
        destruct (posFinite_inv hi Phi) as (mh & eh & -> & _).
        repeat split; reflexivity.
      * destruct (posFinite_positive x Px) as [N0 L0].
        split; [exact N0 |]. split; [exact L0 |]. split.
        -- apply posFinite_ltb_false; [exact Px | exact Plo | lra].
        -- apply (posFinite_ltb hi x Phi Px). lra.
    + assert (L : (toQ lo <= inject_Z (Z.pos p))%Q).
      { rewrite Elo, <- Zle_Qle. lia. }
      assert (U : (inject_Z (Z.pos p) <= toQ hi)%Q).
      { rewrite Ehi, <- Zle_Qle. lia. }
      destruct (rounds_to_bounds _ _ lo hi R Plo Phi L U) as (Px & Lx & Ux).
      destruct (posFinite_positive x Px) as [N0 L0].
      split; [exact N0 |]. split; [exact L0 |]. split.
      * apply posFinite_ltb_false; [exact Px | exact Plo | lra].
      * apply posFinite_ltb_false; [exact Phi | exact Px | lra].
Qed.

(** The decimal digits of a positive whole number parse to its Number
    value, and start with a digit. *)
Lemma parseFloat_digitsOf p :
  parseFloat (digitsOf (N.pos p)) = ofDecimal false (N.pos p) 0
  /\ exists c r d, digitsOf (N.pos p) = String c r /\ digitOf c = Some d.
Proof.
  unfold digitsOf.
  pose proof (DecimalN.Unsigned.of_to (N.pos p)) as E.
  pose proof (DecimalPos.Unsigned.to_uint_nonnil p) as Nn.
  change (N.to_uint (N.pos p)) with (Pos.to_uint p) in *.
  set (u := Pos.to_uint p) in *.
  destruct (string_of_uint_digits u) as [A F].
  assert (H : exists c r d,
             NilEmpty.string_of_uint u = String c r /\ digitOf c = Some d).
  { destruct u; [congruence | ..]; cbn [NilEmpty.string_of_uint];
      do 3 eexists; split; reflexivity. }
  split; [| exact H].
  destruct H as (c & r & d & S & D).
  rewrite S at 1. rewrite (parseFloat_digit_head c r d D), <- S.
  unfold lexDecimal. rewrite (lexDigits_allDigits _ A), F.
  assert (N0 : Decimal.app u Decimal.Nil = u).
  { apply DecimalFacts.app_nil_r. }
  destruct u; [congruence | ..];
    cbn [literalValue lexExponent Decimal.nb_digits Z.of_nat Z.sub];
    rewrite N0, E; reflexivity.
Qed.

(** X15: the validator on the decimal digits of a whole number [n]: 0 is
    not a valid value, a number below the range of the field is too low,
    one above it is too high, however large, and every number of the range
    passes: 50 to 250 for the height, 20 to 500 for the weight. *)
Theorem X15_whole_numbers field n :
  validateField field (digitsOf n) = integerVerdict field n.
Proof.
  destruct n as [| p]; [destruct field; reflexivity |].
  destruct (parseFloat_digitsOf p) as (E & c & r & d & S & D).
  rewrite validateField_eq, E, S.
  destruct (trim_head c r (digit_not_whiteSpace c d D)) as [t ->].
  pose (one := ofDecimal false 1 0).
  assert (P1 : posFinite one) by (vm_compute; reflexivity).
  assert (E1 : (toQ one == 1)%Q) by (vm_compute; reflexivity).
  assert (K : isNaN (ofDecimal false (N.pos p) 0) = false
              /\ leb (ofDecimal false (N.pos p) 0) num_0 = false
              /\ ltb (ofDecimal false (N.pos p) 0) (lowerBound field)
                 = (N.pos p <? lowerN field)%N
              /\ gtb (ofDecimal false (N.pos p) 0) (upperBound field)
                 = (upperN field <? N.pos p)%N).
  { destruct field.
    - apply (integer_compare p one num_50 (ofDecimal false 49 0)
               num_250 (ofDecimal false 251 0) 50 250);
        first [exact P1 | exact E1 | lia | vm_compute; reflexivity].
    - apply (integer_compare p one num_20 (ofDecimal false 19 0)
               num_500 (ofDecimal false 501 0) 20 500);
        first [exact P1 | exact E1 | lia | vm_compute; reflexivity]. }
  destruct K as (-> & -> & -> & ->). unfold integerVerdict.
  change (N.pos p =? 0)%N with false. cbn [orb].
  destruct (N.pos p <? lowerN field)%N; [reflexivity |].
  destruct (upperN field <? N.pos p)%N; reflexivity.
Qed.

(** ** The further properties at concrete inputs *)

Local Open Scope string_scope.

Lemma X4_witness :
  submitted (run sampleToString initialState
               [InputChange Height "170"; InputChange Weight "70";
                InputChange Height "180"]) = false
  /\ run sampleToString initialState
       [InputChange Height "170"; InputChange Weight "70";
        InputChange Height "180"]
     = mkState "180" "70" None "" Errors.empty false.
Proof.
  split; [reflexivity |].
  exact (X4_pristine_state sampleToString
           [InputChange Height "170"; InputChange Weight "70";
            InputChange Height "180"] eq_refl).
Defined.

Lemma X5_witness :
  submitted (run sampleToString initialState sampleInvalidEdit) = true
  /\ Errors.get Weight (errors (run sampleToString initialState sampleInvalidEdit))
     = Some "Please enter a valid weight"
  /\ fieldErrorShown Weight (run sampleToString initialState sampleInvalidEdit)
     = Some "Please enter a valid weight".
Proof.
  assert (S : submitted (run sampleToString initialState sampleInvalidEdit) = true)
    by (vm_compute; reflexivity).
  destruct (X5_field_errors_follow_texts sampleToString sampleInvalidEdit Weight)
    as [H1 H2].
  split; [exact S |]. rewrite (H1 S), H2, S.
  split; vm_compute; reflexivity.
Defined.

Lemma X9_witness :
  bmi (run sampleToString initialState sampleInvalidEdit) <> None
  /\ exists pre post,
       sampleInvalidEdit = (pre ++ Submit :: post)%list
       /\ validInputs (run sampleToString initialState pre)
       /\ bmi (run sampleToString initialState sampleInvalidEdit)
          = Some (storedScore
                    (bmiValueOf (height (run sampleToString initialState pre))
                       (weight (run sampleToString initialState pre)))).
Proof.
  assert (H : bmi (run sampleToString initialState sampleInvalidEdit) <> None)
    by (vm_compute; discriminate).
  split; [exact H |].
  destruct (X9_result_of_last_successful_submission sampleToString
              sampleInvalidEdit H) as (pre & post & E & V & B & _).
  exists pre, post. split; [exact E |]. split; [exact V | exact B].
Defined.

Lemma X10_witness :
  bmi (run sampleToString initialState sampleSubmission)
  = Some (ofDecimal false 242 (-1))
  /\ category (run sampleToString initialState sampleSubmission) = "Normal weight"
  /\ (185 # 10 <= toQ (ofDecimal false 242 (-1)) <= 25)%Q.
Proof.
  assert (B : bmi (run sampleToString initialState sampleSubmission)
              = Some (ofDecimal false 242 (-1))) by (vm_compute; reflexivity).
  assert (C : category (run sampleToString initialState sampleSubmission)
              = "Normal weight") by (vm_compute; reflexivity).
  split; [exact B |]. split; [exact C |].
  destruct (X10_score_within_band_of_category sampleToString sampleSubmission _ B)
    as (_ & _ & _ & N & _).
  exact (N C).
Defined.

Lemma X11_witness :
  resultShown (run sampleToString initialState sampleSubmission) = true
  /\ getCategoryStyles (run sampleToString initialState sampleSubmission)
     <> defaultStyles.
Proof.
  assert (R : resultShown (run sampleToString initialState sampleSubmission) = true)
    by (vm_compute; reflexivity).
  split; [exact R |]. intros H.
  destruct (X11_styles_identify_category sampleToString sampleSubmission [])
    as [[D _] _].
  rewrite (D H) in R. discriminate R.
Defined.

Lemma X13_witness :
  bmi (setBmi (Some num_50) initialState) = Some num_50
  /\ valid num_50 = true
  /\ leb num_40 num_50 = true
  /\ getBmiScalePosition (setBmi (Some num_50) initialState) = num_100.
Proof.
  split; [reflexivity |]. split; [reflexivity |]. split; [reflexivity |].
  destruct (X13_marker_saturates (setBmi (Some num_50) initialState) num_50
              eq_refl eq_refl) as [H _].
  exact (H eq_refl).
Defined.

Lemma X12_witness :
  category (run sampleToString initialState sampleSubmission) = "Normal weight"
  /\ (25 <= toQ (getBmiScalePosition
                   (run sampleToString initialState sampleSubmission)) <= 50)%Q.
Proof.
  assert (C : category (run sampleToString initialState sampleSubmission)
              = "Normal weight") by (vm_compute; reflexivity).
  destruct (X12_marker_follows_category sampleToString sampleSubmission)
    as (A & B & _).
  split; [exact C |]. split; [exact (B C) | exact (A (or_intror C))].
Defined.

Lemma X14_witness :
  allDigits "170" = true /\ "170" <> "" /\ stopsNumber "cm" = true
  /\ parseFloat "170cm" = parseFloat "170"
  /\ validateField Height "170cm" = validateField Height "170".
Proof.
  assert (N : "170" <> "") by discriminate.
  split; [reflexivity |]. split; [exact N |]. split; [reflexivity |].
  exact (X14_trailing_text_ignored Height "170" "cm" eq_refl N eq_refl).
Defined.

Lemma X7_witness :
  validInputs sampleInputs
  /\ calculateBMI sampleToString sampleInputs
     = mkState "170" "70" (Some (ofDecimal false 242 (-1))) "Normal weight"
         Errors.empty true.
Proof.
  split; [exact sampleInputs_valid |].
  rewrite (X7_successful_submission sampleToString sampleInputs
             sampleInputs_valid).
  vm_compute. reflexivity.
Defined.

Lemma X8_witness :
  onlyEdits [InputChange Weight "-5"; InputChange Height ""]
  /\ bmi (run sampleToString
            (run sampleToString initialState sampleSubmission)
            [InputChange Weight "-5"; InputChange Height ""])
     = bmi (run sampleToString initialState sampleSubmission)
  /\ category (run sampleToString
                 (run sampleToString initialState sampleSubmission)
                 [InputChange Weight "-5"; InputChange Height ""])
     = category (run sampleToString initialState sampleSubmission).
Proof.
  assert (O : onlyEdits [InputChange Weight "-5"; InputChange Height ""]).
  { intros ev [<- | [<- | []]]; discriminate. }
  split; [exact O |].
  destruct (X8_edits_keep_result sampleToString
              (run sampleToString initialState sampleSubmission)
              [InputChange Weight "-5"; InputChange Height ""] O)
    as (B & C & _).
  split; [exact B | exact C].
Defined.
